(** * msg2api: the Device and User websocket APIs

    A shallow embedding of [api_base.go], the device server
    ([DeviceServer.authenticate], [DeviceServer.Run], the [do*] handlers)
    and the user server ([UserServer.Run], [UserServer.doGetValues]).

    The program is an interactive loop over a websocket.  It is modelled by
    explicit state passing: a connection state [St] carries the log of
    transport events, and the frames the peer delivers are given as a
    list that the receive calls consume one by one.  A loop that waits for a
    frame the list does not hold is [Blocked].  Libraries (encoding/json,
    crypto, the clock, the socket itself) are parameters, except for the
    parts of encoding/hex and crypto/subtle that the statements are
    about. *)

From Stdlib Require Import String Ascii List ZArith NArith Lia Bool.
From Stdlib.Strings Require Import Byte.
From Stdlib Require Import Sorted.
Import ListNotations.
Open Scope string_scope.

(** ** Go values *)

(** A non-nil Go [error]; the program only ever reads its text
    ([err.Error()]).  A possibly-nil [error] is an [option goerror]. *)
Record goerror : Type := errorsNew { errText : string }.

(** [var errProtocolNegotiationFailed] (api_base.go) and
    [var errAuthenticationFailed] (device server). *)
Definition errProtocolNegotiationFailed : goerror :=
  errorsNew "protocol negotiation failed".
Definition errAuthenticationFailed : goerror :=
  errorsNew "authentication failed".

(** Close codes of gorilla/websocket used by the program. *)
Definition CloseGoingAway : Z := 1001.
Definition CloseProtocolError : Z := 1002.

(** Protocol identifiers (api_base.go). *)
Definition deviceAPIProtocolV1 : string := "v2.device.msg".
Definition userAPIProtocolV3 : string := "v5.user.msg".

(** ** Wire messages *)

Inductive ErrorKind : Type :=
| BadCommand
| InvalidInput
| OperationFailed
| AuthenticationFailed.

(** Modelled from the spec: the [Error] struct is declared in another file
    of the package; the spec gives it as [{kind, message}]. *)
Record Error : Type := mkError { kind : ErrorKind; message : string }.

(** Modelled from the spec: the constructor [badCommand] is declared in
    another file of the package; the spec gives [BadCommand(command)]. *)
Definition badCommand (cmd : string) : Error := mkError BadCommand cmd.

(** Modelled from the spec: the constructor [invalidInput] is declared in
    another file of the package; the spec gives [InvalidInput(reason)].  Its
    second argument is the empty string in every caller and is not part of
    the spec's error value. *)
Definition invalidInput (reason extra : string) : Error :=
  mkError InvalidInput reason.

(** Modelled from the spec: the constructor [operationFailed] is declared in
    another file of the package; the spec gives [OperationFailed(message)]. *)
Definition operationFailed (msg : string) : Error :=
  mkError OperationFailed msg.

(** Modelled from the spec: [MessageIn] is [{command, args}]; [Args] is the
    raw, not yet decoded JSON text ([json.Unmarshal] is applied to it). *)
Record MessageIn : Type := mkMessageIn { Command : string; Args : string }.

(** Modelled from the spec: [MessageOut], with the two fields the dispatch
    loops populate ([Now] is a [*int64], [Error] a [*Error]); a nil pointer
    is [None]. *)
Record MessageOut : Type := mkMessageOut {
  msgNow : option Z;
  msgError : option Error
}.

Definition MessageOut_Error (e : Error) : MessageOut :=
  mkMessageOut None (Some e).
Definition MessageOut_Now (now : Z) : MessageOut :=
  mkMessageOut (Some now) None.

(** ** crypto/hmac: [Equal]

    [hmac.Equal(a, b)] is [subtle.ConstantTimeCompare(a, b) == 1]: unequal
    lengths give 0, otherwise the XOR of every pair of bytes is OR-ed into
    one accumulator, which is compared with zero at the end.  (That it runs
    in time independent of the contents is not expressed here.) *)

Definition xorByte (x y : byte) : N := N.lxor (Byte.to_N x) (Byte.to_N y).

Fixpoint xorAccumulate (v : N) (x y : list byte) : N :=
  match x, y with
  | a :: x', b :: y' => xorAccumulate (N.lor v (xorByte a b)) x' y'
  | _, _ => v
  end.

Definition ConstantTimeCompare (x y : list byte) : Z :=
  if negb (Nat.eqb (length x) (length y)) then 0%Z
  else if N.eqb (xorAccumulate 0 x y) 0 then 1%Z else 0%Z.

Definition hmacEqual (mac1 mac2 : list byte) : bool :=
  Z.eqb (ConstantTimeCompare mac1 mac2) 1.

(** Flipping bit [i] (0..7) of a byte, and of the byte at position [pos] of
    a byte sequence: a single-bit corruption. *)
Definition flipBit (i : N) (b : byte) : byte :=
  match Byte.of_N (N.lxor (Byte.to_N b) (N.shiftl 1 i)) with
  | Some b' => b'
  | None => b
  end.

Fixpoint corruptAt (pos : nat) (i : N) (l : list byte) : list byte :=
  match l, pos with
  | [], _ => []
  | b :: l', O => flipBit i b :: l'
  | b :: l', S pos' => b :: corruptAt pos' i l'
  end.

(** ** encoding/hex: [EncodeToString]

    Two lower-case digits of the table ["0123456789abcdef"] per byte, the
    high nibble first. *)

Definition hextable : string := "0123456789abcdef".

Definition hexDigit (n : N) : ascii :=
  nth (N.to_nat n) (list_ascii_of_string hextable) "0"%char.

Fixpoint EncodeToString (src : list byte) : string :=
  match src with
  | [] => ""
  | b :: src' =>
      String (hexDigit (N.shiftr (Byte.to_N b) 4))
        (String (hexDigit (N.land (Byte.to_N b) 15))
           (EncodeToString src'))
  end.

(** ** encoding/hex: [DecodeString]

    Pairs of digits are decoded from the left; both cases of the digits
    [a]..[f] are accepted.  The first character that is not a hexadecimal
    digit gives an [InvalidByteError], an odd length [ErrLength].  The text
    of an [InvalidByteError] is formatted by the [fmt] package; it is taken
    as given by [invalidByte]. *)

Definition ErrLength : goerror :=
  errorsNew "encoding/hex: odd length hex string".

Definition fromHexChar (c : ascii) : option N :=
  let n := N_of_ascii c in
  if N.leb 48 n && N.leb n 57 then Some (n - 48)%N          (* '0'..'9' *)
  else if N.leb 97 n && N.leb n 102 then Some (n - 87)%N    (* 'a'..'f' *)
  else if N.leb 65 n && N.leb n 70 then Some (n - 55)%N     (* 'A'..'F' *)
  else None.

Definition byteOfN (n : N) : byte :=
  match Byte.of_N n with
  | Some b => b
  | None => "000"%byte
  end.

Fixpoint DecodeString (invalidByte : ascii -> goerror) (s : string)
  : goerror + list byte :=
  match s with
  | "" => inr []
  | String p "" =>
      match fromHexChar p with
      | None => inl (invalidByte p)
      | Some _ => inl ErrLength
      end
  | String p (String q rest) =>
      match fromHexChar p with
      | None => inl (invalidByte p)
      | Some a =>
          match fromHexChar q with
          | None => inl (invalidByte q)
          | Some b =>
              match DecodeString invalidByte rest with
              | inl err => inl err
              | inr bytes =>
                  inr (byteOfN (N.lor (N.shiftl a 4) b) :: bytes)
              end
          end
      end
  end.

(** Flipping bit [i] (0..7) of the character at position [pos] of a text: a
    single-bit corruption of a frame on the wire. *)
Definition flipCharBit (i : N) (c : ascii) : ascii :=
  ascii_of_N (N.lxor (N_of_ascii c) (N.shiftl 1 i)).

Fixpoint corruptText (pos : nat) (i : N) (s : string) : string :=
  match s, pos with
  | "", _ => ""
  | String c s', O => String (flipCharBit i c) s'
  | String c s', S pos' => String c (corruptText pos' i s')
  end.

(** ** The websocket connection

    gorilla/websocket is a library, and the package's [socketWrapper]
    around it is declared in another file.  A connection is modelled by
    what the program can observe of it and do to it: the negotiated
    subprotocol, the read limit, and the ordered log of transport events. *)

(** What one receive call finds: a frame of the peer, or a failure of the
    transport (closed socket, frame violation, read limit exceeded). *)
Inductive Inbound : Type :=
| Frame (data : string)
| ReadError (err : goerror).

Inductive Event : Type :=
| EvWrite (text : string) (res : option goerror)
| EvWriteJSON (m : MessageOut) (res : option goerror)
| EvReceive (i : Inbound)
| EvCloseFrame (code : Z) (reason : string)
| EvDisconnect.

Record Socket : Type := mkSocket {
  Subprotocol : string;    (* conn.Subprotocol() *)
  ReadLimit : Z;           (* set by conn.SetReadLimit; 0 is "no limit" *)
  trace : list Event;      (* transport events so far, oldest first *)
  writes : nat             (* number of Write / WriteJSON calls so far *)
}.

Definition logEvent (e : Event) (k : Socket) : Socket :=
  mkSocket (Subprotocol k) (ReadLimit k) (trace k ++ [e]) (writes k).

Definition SetReadLimit (limit : Z) (k : Socket) : Socket :=
  mkSocket (Subprotocol k) limit (trace k) (writes k).

(** [conn.WriteMessage(websocket.CloseMessage,
    websocket.FormatCloseMessage(code, reason))] followed by [conn.Close()],
    as [initAPIBaseFromSocket] does on the raw connection. *)
Definition closeWith (code : Z) (reason : string) (k : Socket) : Socket :=
  logEvent EvDisconnect (logEvent (EvCloseFrame code reason) k).

(** Modelled from the spec: [socketWrapper.Close(code, reason)], declared in
    another file of the package, is the transport's "explicit framed close
    with a reason code": the close frame, then the disconnect. *)
Definition sockClose (code : Z) (reason : string) (k : Socket) : Socket :=
  closeWith code reason k.

(** ** api_base.go *)

Record apiBase : Type := mkApiBase { socket : Socket }.

(** [apiBase.Close] *)
Definition apiBase_Close (b : apiBase) : apiBase :=
  mkApiBase (sockClose CloseGoingAway "" (socket b)).

(** [wrapWebsocket] only wraps the connection. *)
Definition wrapWebsocket (conn : Socket) : Socket := conn.

(** [initAPIBaseFromSocket]: the result is either the error together with
    the connection as it was left, or the new [apiBase]. *)
Definition initAPIBaseFromSocket (conn : Socket)
  : (goerror * Socket) + apiBase :=
  if String.eqb (Subprotocol conn) ""
  then inl (errProtocolNegotiationFailed,
            closeWith CloseProtocolError "" conn)
  else inr (mkApiBase (wrapWebsocket (SetReadLimit 4096 conn))).

(** The upgrade request as the program sees it: whether the HTTP handshake
    itself is acceptable to [Upgrader.Upgrade], and the subprotocols the peer
    offers in [Sec-WebSocket-Protocol]. *)
Record UpgradeRequest : Type := mkUpgradeRequest {
  handshakeError : option goerror;
  offered : list string
}.

(** gorilla/websocket's [Upgrader.selectSubprotocol]: the first of the
    server's protocols that the client offers, or the empty string. *)
Fixpoint selectSubprotocol (serverProtocols clientProtocols : list string)
  : string :=
  match serverProtocols with
  | [] => ""
  | sp :: rest =>
      if existsb (String.eqb sp) clientProtocols then sp
      else selectSubprotocol rest clientProtocols
  end.

(** gorilla/websocket's [Upgrader.Upgrade]: a fresh connection bound to the
    selected subprotocol. *)
Definition Upgrade (protocols : list string) (r : UpgradeRequest)
  : goerror + Socket :=
  match handshakeError r with
  | Some err => inl err
  | None => inr (mkSocket (selectSubprotocol protocols (offered r)) 0 [] 0)
  end.

(** [initAPIBaseFromHTTP]; an upgrade error leaves no connection behind. *)
Definition initAPIBaseFromHTTP (r : UpgradeRequest) (protocols : list string)
  : (goerror * option Socket) + apiBase :=
  match Upgrade protocols r with
  | inl err => inl (err, None)
  | inr conn =>
      match initAPIBaseFromSocket conn with
      | inl (err, conn') => inl (err, Some conn')
      | inr base => inr base
      end
  end.

(** ** The two servers *)

Section Protocol.

(** The state of the business logic behind the delegates.  A delegate is a
    Go closure; it is modelled as a function that transforms this state
    and reports a possibly-nil error.  What the connection's owner pushes
    on the socket ([SendUpdate], [SendMetadata], [RequestRealtimeUpdates])
    is not part of the loops and does not appear in their log. *)
Variable W : Type.

(** Payload types declared in another file of the package.  [float64] is
    Go's type of the same name; [Time] is [time.Time]. *)
Variables Measurement DeviceMetadata float64 Time : Type.

(** Modelled from the spec: [DeviceCmdUpdateArgs], the [update] row of the
    command table, [{values: map<sensorId, list<Measurement>>}]; the handler
    reads [args.Values]. *)
Record DeviceCmdUpdateArgs : Type := mkUpdateArgs {
  Values : list (string * list Measurement)   (* map[string][]Measurement *)
}.

(** Modelled from the spec: [DeviceCmdAddSensorArgs], the [addSensor] row,
    [{name, unit, port, factor}]; the field types are those of the
    [AddSensor] delegate. *)
Record DeviceCmdAddSensorArgs : Type := mkAddSensorArgs {
  Name : string; Unit : string; Port : Z; Factor : float64
}.

(** Modelled from the spec: [DeviceCmdRemoveSensorArgs], the [removeSensor]
    row, [{name}]; the handler reads [args.Name]. *)
Record DeviceCmdRemoveSensorArgs : Type := mkRemoveSensorArgs {
  RemoveName : string
}.

(** Modelled from the spec: [UserCmdGetValuesArgs], the [getValues] row,
    [{sinceUnixMs, withMetadata}]; the handler divides [args.SinceUnixMs]
    by 1000 and then converts it to [int64], so it is taken to be a
    [float64]. *)
Record UserCmdGetValuesArgs : Type := mkGetValuesArgs {
  SinceUnixMs : float64; WithMetadata : bool
}.

(** encoding/json: one decoder per target type.  [unmarshalMessageIn] is
    the decoding step of [ReceiveJSON(&msg)]; the others are
    [json.Unmarshal(msg.Args, &args)] at each argument type. *)
Record Codec : Type := mkCodec {
  unmarshalMessageIn : string -> goerror + MessageIn;
  unmarshalUpdateArgs : string -> goerror + DeviceCmdUpdateArgs;
  unmarshalAddSensorArgs : string -> goerror + DeviceCmdAddSensorArgs;
  unmarshalRemoveSensorArgs : string -> goerror + DeviceCmdRemoveSensorArgs;
  unmarshalDeviceMetadata : string -> goerror + DeviceMetadata;
  unmarshalGetValuesArgs : string -> goerror + UserCmdGetValuesArgs
}.

(** The other library functions the servers call. *)
Record GoLib : Type := mkGoLib {
  hexInvalidByteError : ascii -> goerror;              (* encoding/hex *)
  hmacSHA256 : list byte -> list byte -> list byte;    (* key, message *)
  float64Div1000 : float64 -> float64;                 (* x / 1000 *)
  float64ToInt64 : float64 -> Z;                       (* int64(x) *)
  timeUnix : Z -> Z -> Time                            (* time.Unix *)
}.

(** What the outside world does during one run: the outcome of
    [rand.Read] on the 32-byte buffer, the result of the n-th write on the
    socket, and the n-th reading of [time.Now().UnixNano()]. *)
Record Environment : Type := mkEnvironment {
  randRead : goerror + list byte;
  writeResult : nat -> option goerror;
  unixNano : nat -> Z
}.

Variable json : Codec.
Variable lib : GoLib.
Variable env : Environment.

(** *** Connection state and socket operations *)

Record St : Type := mkSt {
  sock : Socket;
  ticks : nat;     (* number of clock readings so far *)
  world : W
}.

Definition withSock (k : Socket) (s : St) : St :=
  mkSt k (ticks s) (world s).
Definition withWorld (w : W) (s : St) : St :=
  mkSt (sock s) (ticks s) w.

(** Modelled from the spec: [socketWrapper.Write], the transport's
    [send(text)].  A write is logged together with the result the transport
    reports for it. *)
Definition sockWrite (text : string) (s : St) : St * option goerror :=
  let k := sock s in
  let res := writeResult env (writes k) in
  (withSock (mkSocket (Subprotocol k) (ReadLimit k)
               (trace k ++ [EvWrite text res]) (S (writes k))) s, res).

(** Modelled from the spec: [socketWrapper.WriteJSON], the transport's
    [sendTyped(value)]. *)
Definition sockWriteJSON (m : MessageOut) (s : St) : St * option goerror :=
  let k := sock s in
  let res := writeResult env (writes k) in
  (withSock (mkSocket (Subprotocol k) (ReadLimit k)
               (trace k ++ [EvWriteJSON m res]) (S (writes k))) s, res).

(** Modelled from the spec: [socketWrapper.Receive], the transport's
    [receive() -> bytes|error]. *)
Definition sockReceive (i : Inbound) (s : St) : St * (goerror + string) :=
  (withSock (logEvent (EvReceive i) (sock s)) s,
   match i with
   | Frame data => inr data
   | ReadError err => inl err
   end).

(** Modelled from the spec: [socketWrapper.ReceiveJSON], the transport's
    [receiveTyped() -> value|error]: a read error of the transport, or the
    error of decoding the frame into the envelope. *)
Definition sockReceiveJSON (i : Inbound) (s : St)
  : St * (goerror + MessageIn) :=
  (withSock (logEvent (EvReceive i) (sock s)) s,
   match i with
   | Frame data => unmarshalMessageIn json data
   | ReadError err => inl err
   end).

(** [socket.Close(code, reason)] on the connection state. *)
Definition stClose (code : Z) (reason : string) (s : St) : St :=
  withSock (sockClose code reason (sock s)) s.

(** [time.Now().UnixNano() / 1e6]: Go's integer division truncates. *)
Definition nowMillis (s : St) : Z * St :=
  (Z.quot (unixNano env (ticks s)) 1000000,
   mkSt (sock s) (S (ticks s)) (world s)).

(** What [Run] comes to on a given list of inbound frames: it returns its
    error, or it is left waiting in a receive for a frame that the list
    does not hold. *)
Inductive Outcome : Type :=
| Returned (s : St) (err : option goerror)
| Blocked (s : St).

(** *** The device server *)

Record DeviceServer : Type := mkDeviceServer {
  Update :
    option (list (string * list Measurement) -> W -> W * option Error);
  AddSensor :
    option (string -> string -> Z -> float64 -> W -> W * option Error);
  RemoveSensor : option (string -> W -> W * option Error);
  UpdateMetadata : option (DeviceMetadata -> W -> W * option Error)
}.

Inductive AuthOutcome : Type :=
| AuthReturned (s : St) (rest : list Inbound) (err : option goerror)
| AuthBlocked (s : St).

(** [hex.DecodeString] *)
Definition hexDecodeString (s : string) : goerror + list byte :=
  DecodeString (hexInvalidByteError lib) s.

(** [DeviceServer.authenticate] *)
Definition authenticate (key : list byte) (inbox : list Inbound) (s : St)
  : AuthOutcome :=
  match randRead env with
  | inl err => AuthReturned s inbox (Some err)
  | inr buf =>
      let challenge := EncodeToString buf in
      let s := fst (sockWrite challenge s) in
      match inbox with
      | [] => AuthBlocked s
      | i :: inbox =>
          match sockReceive i s with
          | (s, inl err) => AuthReturned s inbox (Some err)
          | (s, inr msgRaw) =>
              match hexDecodeString msgRaw with
              | inl err => AuthReturned s inbox (Some err)
              | inr msg =>
                  let expected := hmacSHA256 lib key buf in
                  if negb (hmacEqual msg expected)
                  then AuthReturned s inbox (Some errAuthenticationFailed)
                  else
                    let (s, res) := sockWrite "proceed" s in
                    AuthReturned s inbox res
              end
          end
      end
  end.

(** [doUpdate], [doAddSensor], [doRemoveSensor], [doUpdateMetadata] *)
Definition doUpdate (d : DeviceServer) (msg : MessageIn) (w : W)
  : W * option Error :=
  match unmarshalUpdateArgs json (Args msg) with
  | inl err => (w, Some (invalidInput (errText err) ""))
  | inr args =>
      match Update d with
      | None => (w, Some (operationFailed "not supported"))
      | Some f => f (Values args) w
      end
  end.

Definition doAddSensor (d : DeviceServer) (msg : MessageIn) (w : W)
  : W * option Error :=
  match unmarshalAddSensorArgs json (Args msg) with
  | inl err => (w, Some (invalidInput (errText err) ""))
  | inr args =>
      match AddSensor d with
      | None => (w, Some (operationFailed "not supported"))
      | Some f => f (Name args) (Unit args) (Port args) (Factor args) w
      end
  end.

Definition doRemoveSensor (d : DeviceServer) (msg : MessageIn) (w : W)
  : W * option Error :=
  match unmarshalRemoveSensorArgs json (Args msg) with
  | inl err => (w, Some (invalidInput (errText err) ""))
  | inr args =>
      match RemoveSensor d with
      | None => (w, Some (operationFailed "not supported"))
      | Some f => f (RemoveName args) w
      end
  end.

Definition doUpdateMetadata (d : DeviceServer) (msg : MessageIn) (w : W)
  : W * option Error :=
  match unmarshalDeviceMetadata json (Args msg) with
  | inl err => (w, Some (invalidInput (errText err) ""))
  | inr args =>
      match UpdateMetadata d with
      | None => (w, Some (operationFailed "not supported"))
      | Some f => f args w
      end
  end.

(** The [switch msg.Command] of [DeviceServer.Run]. *)
Definition deviceDispatch (d : DeviceServer) (msg : MessageIn) (w : W)
  : W * option Error :=
  if String.eqb (Command msg) "update" then doUpdate d msg w
  else if String.eqb (Command msg) "addSensor" then doAddSensor d msg w
  else if String.eqb (Command msg) "removeSensor"
       then doRemoveSensor d msg w
  else if String.eqb (Command msg) "updateMetadata"
       then doUpdateMetadata d msg w
  else (w, Some (badCommand (Command msg))).

(** The [if opError != nil { ... } else { ... }] of [DeviceServer.Run];
    the result of [WriteJSON] is dropped. *)
Definition deviceReply (opError : option Error) (s : St) : St :=
  match opError with
  | Some e => fst (sockWriteJSON (MessageOut_Error e) s)
  | None =>
      let (now, s) := nowMillis s in
      fst (sockWriteJSON (MessageOut_Now now) s)
  end.

(** The [fail:] block of [DeviceServer.Run]. *)
Definition fail (err : goerror) (s : St) : Outcome :=
  Returned (stClose CloseProtocolError (errText err) s) (Some err).

(** The [for] loop of [DeviceServer.Run]. *)
Fixpoint deviceLoop (d : DeviceServer) (inbox : list Inbound) (s : St)
  : Outcome :=
  match inbox with
  | [] => Blocked s
  | i :: inbox =>
      match sockReceiveJSON i s with
      | (s, inl err) => fail err s
      | (s, inr msg) =>
          let (w, opError) := deviceDispatch d msg (world s) in
          deviceLoop d inbox (deviceReply opError (withWorld w s))
      end
  end.

(** [DeviceServer.Run] *)
Definition DeviceServer_Run (d : DeviceServer) (key : list byte)
    (inbox : list Inbound) (s : St) : Outcome :=
  match authenticate key inbox s with
  | AuthBlocked s => Blocked s
  | AuthReturned s _ (Some err) => fail err s
  | AuthReturned s inbox None => deviceLoop d inbox s
  end.

(** [NewDeviceServer]: no delegate is set. *)
Definition NewDeviceServer (r : UpgradeRequest)
  : (goerror * option Socket) + (apiBase * DeviceServer) :=
  match initAPIBaseFromHTTP r [deviceAPIProtocolV1] with
  | inl e => inl e
  | inr base => inr (base, mkDeviceServer None None None None)
  end.

(** *** The user server *)

Record UserServer : Type := mkUserServer {
  GetValues : option (Time -> bool -> W -> W * option goerror)
}.

(** [time.Unix(int64(ms/1000), int64(ms)%1000*1e6)]; Go's [%] is the
    remainder of the truncating division. *)
Definition sinceTime (ms : float64) : Time :=
  timeUnix lib (float64ToInt64 lib (float64Div1000 lib ms))
               (Z.rem (float64ToInt64 lib ms) 1000 * 1000000).

(** [UserServer.doGetValues] *)
Definition doGetValues (u : UserServer) (cmd : MessageIn) (w : W)
  : W * option Error :=
  match unmarshalGetValuesArgs json (Args cmd) with
  | inl err => (w, Some (operationFailed (errText err)))
  | inr args =>
      match GetValues u with
      | None => (w, Some (operationFailed "not supported"))
      | Some f =>
          match f (sinceTime (SinceUnixMs args)) (WithMetadata args) w with
          | (w, Some err) => (w, Some (operationFailed (errText err)))
          | (w, None) => (w, None)
          end
      end
  end.

(** The body of the loop of [UserServer.Run] after a successful receive:
    the [switch], whose default case writes the [badCommand] reply itself,
    then the [if opError != nil]. *)
Definition userCycle (u : UserServer) (msg : MessageIn) (s : St) : St :=
  let (s, opError) :=
    if String.eqb (Command msg) "getValues"
    then let (w, opError) := doGetValues u msg (world s) in
         (withWorld w s, opError)
    else (fst (sockWriteJSON
                 (MessageOut_Error (badCommand (Command msg))) s), None) in
  match opError with
  | Some e => fst (sockWriteJSON (MessageOut_Error e) s)
  | None => s
  end.

(** [UserServer.Run] *)
Fixpoint UserServer_Run (u : UserServer) (inbox : list Inbound) (s : St)
  : Outcome :=
  match inbox with
  | [] => Blocked s
  | i :: inbox =>
      match sockReceiveJSON i s with
      | (s, inl err) =>
          Returned (stClose CloseProtocolError (errText err) s) (Some err)
      | (s, inr msg) => UserServer_Run u inbox (userCycle u msg s)
      end
  end.

(** [NewUserServer]; the user server's file names the protocol constant
    [userApiProtocolV1], api_base.go declares it as [userAPIProtocolV3]. *)
Definition NewUserServer (r : UpgradeRequest)
  : (goerror * option Socket) + (apiBase * UserServer) :=
  match initAPIBaseFromHTTP r [userAPIProtocolV3] with
  | inl e => inl e
  | inr base => inr (base, mkUserServer None)
  end.

End Protocol.

Arguments mkSt {W} sock ticks world.
Arguments sock {W} s.
Arguments ticks {W} s.
Arguments world {W} s.
Arguments withSock {W} k s.
Arguments withWorld {W} w s.
Arguments Returned {W} s err.
Arguments Blocked {W} s.
Arguments AuthReturned {W} s rest err.
Arguments AuthBlocked {W} s.
Arguments sockWrite {W} env text s.
Arguments sockWriteJSON {W} env m s.
Arguments sockReceive {W} i s.
Arguments sockReceiveJSON {W Measurement DeviceMetadata float64} json i s.
Arguments stClose {W} code reason s.
Arguments nowMillis {W} env s.
Arguments fail {W} err s.
Arguments mkUpdateArgs {Measurement} Values.
Arguments Values {Measurement} d.
Arguments mkAddSensorArgs {float64} Name Unit Port Factor.
Arguments Name {float64} d.
Arguments Unit {float64} d.
Arguments Port {float64} d.
Arguments Factor {float64} d.
Arguments mkGetValuesArgs {float64} SinceUnixMs WithMetadata.
Arguments SinceUnixMs {float64} u.
Arguments WithMetadata {float64} u.
Arguments mkCodec {Measurement DeviceMetadata float64}.
Arguments unmarshalMessageIn {Measurement DeviceMetadata float64} c.
Arguments unmarshalUpdateArgs {Measurement DeviceMetadata float64} c.
Arguments unmarshalAddSensorArgs {Measurement DeviceMetadata float64} c.
Arguments unmarshalRemoveSensorArgs {Measurement DeviceMetadata float64} c.
Arguments unmarshalDeviceMetadata {Measurement DeviceMetadata float64} c.
Arguments unmarshalGetValuesArgs {Measurement DeviceMetadata float64} c.
Arguments mkGoLib {float64 Time}.
Arguments hexInvalidByteError {float64 Time} g.
Arguments hexDecodeString {float64 Time} lib s.
Arguments hmacSHA256 {float64 Time} g.
Arguments float64Div1000 {float64 Time} g.
Arguments float64ToInt64 {float64 Time} g.
Arguments timeUnix {float64 Time} g.
Arguments sinceTime {float64 Time} lib ms.
Arguments mkDeviceServer {W Measurement DeviceMetadata float64}.
Arguments Update {W Measurement DeviceMetadata float64} d.
Arguments AddSensor {W Measurement DeviceMetadata float64} d.
Arguments RemoveSensor {W Measurement DeviceMetadata float64} d.
Arguments UpdateMetadata {W Measurement DeviceMetadata float64} d.
Arguments mkUserServer {W Time}.
Arguments GetValues {W Time} u.
Arguments authenticate {W float64 Time} lib env key inbox s.
Arguments doUpdate {W Measurement DeviceMetadata float64} json d msg w.
Arguments doAddSensor {W Measurement DeviceMetadata float64} json d msg w.
Arguments doRemoveSensor {W Measurement DeviceMetadata float64} json d msg w.
Arguments doUpdateMetadata {W Measurement DeviceMetadata float64} json d msg w.
Arguments deviceDispatch {W Measurement DeviceMetadata float64} json d msg w.
Arguments deviceReply {W} env opError s.
Arguments deviceLoop {W Measurement DeviceMetadata float64} json env d inbox s.
Arguments DeviceServer_Run {W Measurement DeviceMetadata float64 Time}
  json lib env d key inbox s.
Arguments doGetValues {W Measurement DeviceMetadata float64 Time}
  json lib u cmd w.
Arguments userCycle {W Measurement DeviceMetadata float64 Time}
  json lib env u msg s.
Arguments UserServer_Run {W Measurement DeviceMetadata float64 Time}
  json lib env u inbox s.

(** ** Vocabulary of the statements *)


(** The state [s] after the transport events [evs], of which [nwrites] are
    writes, after [nticks] clock readings, with the delegates' state [w]. *)
Definition afterEvents {W : Type} (s : St W) (evs : list Event)
    (nwrites nticks : nat) (w : W) : St W :=
  mkSt (mkSocket (Subprotocol (sock s)) (ReadLimit (sock s))
                 (trace (sock s) ++ evs) (writes (sock s) + nwrites))
       (ticks s + nticks) w.

(** The JSON replies among a list of transport events. *)
Fixpoint replies (evs : list Event) : list MessageOut :=
  match evs with
  | [] => []
  | EvWriteJSON m _ :: evs' => m :: replies evs'
  | _ :: evs' => replies evs'
  end.

(** The hexadecimal digits that have two cases. *)
Definition isHexLetter (c : ascii) : bool :=
  let n := N_of_ascii c in
  (N.leb 97 n && N.leb n 102) || (N.leb 65 n && N.leb n 70).

(** Whether flipping bit [i] of the digit [c] leaves its value unchanged. *)
Definition keepsDigit (i : N) (c : ascii) : bool :=
  match fromHexChar c, fromHexChar (flipCharBit i c) with
  | Some a, Some a' => N.eqb a a'
  | _, _ => false
  end.

Definition letterAt (pos : nat) (s : string) : bool :=
  match String.get pos s with
  | Some c => isHexLetter c
  | None => false
  end.

(** Whether the text ["proceed"] was written. *)
Definition proceedSent (evs : list Event) : bool :=
  existsb (fun e => match e with
                    | EvWrite text _ => String.eqb text "proceed"
                    | _ => false
                    end) evs.

(** What a delegate reported, whatever its Go type: the device delegates
    return a [*Error], the user delegate a plain [error]. *)
Inductive Failure : Type :=
| ApiFailure (e : Error)
| PlainFailure (e : goerror).

(** The device loop, on the frame [data] in state [s], writes the one reply
    [m] (after [nticks] readings of the clock), leaves the delegates' state
    at [w'] and goes on with the next receive: the connection stays open. *)
Definition deviceAnswers {W Measurement DeviceMetadata float64 : Type}
    (json : Codec Measurement DeviceMetadata float64) (env : Environment)
    (d : DeviceServer W Measurement DeviceMetadata float64)
    (data : string) (s : St W) (m : MessageOut) (nticks : nat) (w' : W)
  : Prop :=
  forall rest : list Inbound,
    deviceLoop json env d (Frame data :: rest) s =
    deviceLoop json env d rest
      (afterEvents s
         [EvReceive (Frame data);
          EvWriteJSON m (writeResult env (writes (sock s)))] 1 nticks w').

(** The same for the user loop, which writes one reply or none. *)
Definition userAnswers {W Measurement DeviceMetadata float64 Time : Type}
    (json : Codec Measurement DeviceMetadata float64)
    (lib : GoLib float64 Time) (env : Environment)
    (u : UserServer W Time)
    (data : string) (s : St W) (reply : option MessageOut) (w' : W)
  : Prop :=
  forall rest : list Inbound,
    UserServer_Run json lib env u (Frame data :: rest) s =
    UserServer_Run json lib env u rest
      match reply with
      | Some m =>
          afterEvents s
            [EvReceive (Frame data);
             EvWriteJSON m (writeResult env (writes (sock s)))] 1 0 w'
      | None => afterEvents s [EvReceive (Frame data)] 0 0 w'
      end.

(** [Run], on the authentication reply [reply] to the challenge [buf],
    returns the error [e] right after the receive: the transport is closed
    with the protocol-error code and the text of [e], nothing was written
    after the challenge, the frames in [rest] are never read and the
    delegates' state is untouched. *)
Definition authRejected {W Measurement DeviceMetadata float64 Time : Type}
    (json : Codec Measurement DeviceMetadata float64)
    (lib : GoLib float64 Time) (env : Environment)
    (d : DeviceServer W Measurement DeviceMetadata float64)
    (key buf : list byte) (reply : string) (rest : list Inbound) (s : St W)
    (e : goerror) : Prop :=
  let evs :=
    [EvWrite (EncodeToString buf) (writeResult env (writes (sock s)));
     EvReceive (Frame reply);
     EvCloseFrame CloseProtocolError (errText e);
     EvDisconnect] in
  DeviceServer_Run json lib env d key (Frame reply :: rest) s =
    Returned (afterEvents s evs 1 0 (world s)) (Some e)
  /\ proceedSent evs = false.

(** ** Vocabulary of the further properties *)

(** The state an outcome leaves the connection in. *)
Definition outcomeState {W : Type} (o : Outcome W) : St W :=
  match o with
  | Returned s _ => s
  | Blocked s => s
  end.

Definition authState {W : Type} (o : AuthOutcome W) : St W :=
  match o with
  | AuthReturned s _ _ => s
  | AuthBlocked s => s
  end.

(** The error that [ReceiveJSON] reports for an inbound item, if any: the
    read error of the transport or the error of decoding the envelope. *)
Definition receiveError {Measurement DeviceMetadata float64 : Type}
    (json : Codec Measurement DeviceMetadata float64) (i : Inbound)
  : option goerror :=
  match i with
  | ReadError err => Some err
  | Frame data =>
      match unmarshalMessageIn json data with
      | inl err => Some err
      | inr _ => None
      end
  end.

(** The first receive error along a list of inbound items. *)
Fixpoint firstReceiveError {Measurement DeviceMetadata float64 : Type}
    (json : Codec Measurement DeviceMetadata float64)
    (inbox : list Inbound) : option goerror :=
  match inbox with
  | [] => None
  | i :: rest =>
      match receiveError json i with
      | Some err => Some err
      | None => firstReceiveError json rest
      end
  end.

(** The number of items before the first receive error. *)
Fixpoint decodedPrefix {Measurement DeviceMetadata float64 : Type}
    (json : Codec Measurement DeviceMetadata float64)
    (inbox : list Inbound) : nat :=
  match inbox with
  | [] => 0
  | i :: rest =>
      match receiveError json i with
      | Some _ => 0
      | None => S (decodedPrefix json rest)
      end
  end.

(** The [now] values among a list of transport events, in order. *)
Fixpoint nows (evs : list Event) : list Z :=
  match evs with
  | [] => []
  | EvWriteJSON m _ :: evs' =>
      match msgNow m with
      | Some t => t :: nows evs'
      | None => nows evs'
      end
  | _ :: evs' => nows evs'
  end.

(** An outbound reply with exactly one of [now] and [error]. *)
Definition wellFormedReply (m : MessageOut) : bool :=
  match msgNow m, msgError m with
  | Some _, None => true
  | None, Some _ => true
  | _, _ => false
  end.

Definition isErrorReply (m : MessageOut) : bool :=
  match msgNow m, msgError m with
  | None, Some _ => true
  | _, _ => false
  end.

(** Whether an event closes the connection. *)
Definition isClose (e : Event) : bool :=
  match e with
  | EvCloseFrame _ _ => true
  | EvDisconnect => true
  | _ => false
  end.

(** The log with the results of the writes forgotten. *)
Definition eraseResult (e : Event) : Event :=
  match e with
  | EvWrite text _ => EvWrite text None
  | EvWriteJSON m _ => EvWriteJSON m None
  | _ => e
  end.

(** The reply the device loop writes for the outcome [opError] of a
    command, and the number of clock readings it takes. *)
Definition deviceReplyOf {W : Type} (env : Environment)
    (opError : option Error) (s : St W) : MessageOut :=
  match opError with
  | Some e => MessageOut_Error e
  | None => MessageOut_Now (Z.quot (unixNano env (ticks s)) 1000000)
  end.

Definition ticksOf (opError : option Error) : nat :=
  match opError with
  | Some _ => 0
  | None => 1
  end.

(** The events of one turn of the user loop after the receive. *)
Definition userReplyEvents (env : Environment) (nwrites : nat)
    (reply : option MessageOut) : list Event :=
  match reply with
  | Some m => [EvWriteJSON m (writeResult env nwrites)]
  | None => []
  end.

(** What one turn of the user loop does with a decoded message: the new
    state of the delegates and the reply it writes, if any. *)
Definition userReplyOf {W Measurement DeviceMetadata float64 Time : Type}
    (json : Codec Measurement DeviceMetadata float64)
    (lib : GoLib float64 Time) (u : UserServer W Time)
    (msg : MessageIn) (w : W) : W * option MessageOut :=
  if String.eqb (Command msg) "getValues"
  then (fst (doGetValues json lib u msg w),
        option_map MessageOut_Error (snd (doGetValues json lib u msg w)))
  else (w, Some (MessageOut_Error (badCommand (Command msg)))).

(** The error an outcome returns; [None] when the loop is left waiting. *)
Definition outcomeError {W : Type} (o : Outcome W) : option goerror :=
  match o with
  | Returned _ err => err
  | Blocked _ => None
  end.

(** ** A concrete instance

    Used to run the definitions on explicit inputs.  The JSON decoders are a
    table over the frames of the examples, the HMAC is a stand-in (SHA-256
    is not modelled), numbers are integral. *)
Module Demo.

Definition dq : string := String "034"%char "".
Definition quoted (s : string) : string := dq ++ s ++ dq.

(** [{"sinceUnixMs":0,"withMetadata":true}] *)
Definition argsGetValues : string :=
  "{" ++ quoted "sinceUnixMs" ++ ":0," ++ quoted "withMetadata" ++ ":true}".
(** [{"values":{}}] *)
Definition argsUpdate : string := "{" ++ quoted "values" ++ ":{}}".
(** ["x"]: a JSON string where an object is expected. *)
Definition argsString : string := quoted "x".

(** [{"command":<name>,"args":<args>}] *)
Definition envelope (name args : string) : string :=
  "{" ++ quoted "command" ++ ":" ++ quoted name ++ ","
      ++ quoted "args" ++ ":" ++ args ++ "}".

Definition frameGetValues : string := envelope "getValues" argsGetValues.
Definition frameGetValuesBadArgs : string := envelope "getValues" argsString.
Definition frameUpdate : string := envelope "update" argsUpdate.
Definition frameUpdateBadArgs : string := envelope "update" argsString.
(** [{"command":"bogus"}] *)
Definition frameBogus : string :=
  "{" ++ quoted "command" ++ ":" ++ quoted "bogus" ++ "}".

Definition decodeMessageIn (data : string) : goerror + MessageIn :=
  if String.eqb data frameGetValues
  then inr (mkMessageIn "getValues" argsGetValues)
  else if String.eqb data frameGetValuesBadArgs
  then inr (mkMessageIn "getValues" argsString)
  else if String.eqb data frameUpdate
  then inr (mkMessageIn "update" argsUpdate)
  else if String.eqb data frameUpdateBadArgs
  then inr (mkMessageIn "update" argsString)
  else if String.eqb data frameBogus
  then inr (mkMessageIn "bogus" "")
  else inl (errorsNew "unexpected end of JSON input").

Definition cannotUnmarshal : goerror :=
  errorsNew "json: cannot unmarshal string into Go value".

Definition json : Codec unit unit Z :=
  mkCodec decodeMessageIn
    (fun a => if String.eqb a argsUpdate then inr (mkUpdateArgs [])
              else inl cannotUnmarshal)
    (fun _ => inl cannotUnmarshal)
    (fun _ => inl cannotUnmarshal)
    (fun _ => inl cannotUnmarshal)
    (fun a => if String.eqb a argsGetValues
              then inr (mkGetValuesArgs 0%Z true)
              else inl cannotUnmarshal).

Definition lib : GoLib Z (Z * Z) :=
  mkGoLib (fun c => errorsNew ("encoding/hex: invalid byte: " ++ String c ""))
    (fun key message => rev (key ++ message))
    (fun x => Z.quot x 1000) (fun x => x) (fun sec nsec => (sec, nsec)).

Definition challenge : list byte := repeat "*"%byte 32.
Definition key : list byte := ["k"%byte; "e"%byte; "y"%byte].

(** Every write succeeds; the clock advances by one millisecond per
    reading. *)
Definition env : Environment :=
  mkEnvironment (inr challenge) (fun _ => None)
    (fun n => 1500000000000000000 + 1000000 * Z.of_nat n)%Z.

(** The first write fails, the later ones succeed. *)
Definition brokenPipe : goerror := errorsNew "write: broken pipe".
Definition envFirstWriteFails : Environment :=
  mkEnvironment (inr challenge)
    (fun n => match n with O => Some brokenPipe | S _ => None end)
    (unixNano env).

(** The delegates count their invocations. *)
Definition device : DeviceServer nat unit unit Z :=
  mkDeviceServer (Some (fun _ w => (S w, None))) None None None.

Definition user : UserServer nat (Z * Z) :=
  mkUserServer (Some (fun _ _ w => (S w, None))).

(** A freshly negotiated connection. *)
Definition deviceConn : St nat :=
  mkSt (mkSocket deviceAPIProtocolV1 4096 [] 0) 0 0.
Definition userConn : St nat :=
  mkSt (mkSocket userAPIProtocolV3 4096 [] 0) 0 0.

(** The reply of a compliant client to [challenge] under [key]. *)
Definition goodReply : string :=
  EncodeToString (hmacSHA256 lib key challenge).

(** The second write (the one of "proceed" in a handshake) fails. *)
Definition envSecondWriteFails : Environment :=
  mkEnvironment (inr challenge)
    (fun n => match n with 1%nat => Some brokenPipe | _ => None end)
    (unixNano env).

(** An upgrade request of a device, and one of a user's browser. *)
Definition deviceRequest : UpgradeRequest :=
  mkUpgradeRequest None [deviceAPIProtocolV1].
Definition userRequest : UpgradeRequest :=
  mkUpgradeRequest None [userAPIProtocolV3].

End Demo.

(** * Properties *)

(** ** Facts about [hmacEqual] *)

Lemma xorByte_zero_iff (a b : byte) : xorByte a b = 0%N <-> a = b.
Proof.
  unfold xorByte. split.
  - intros H. apply N.lxor_eq in H.
    assert (E : Byte.of_N (Byte.to_N a) = Byte.of_N (Byte.to_N b))
      by (rewrite H; reflexivity).
    rewrite !Byte.of_to_N in E. congruence.
  - intros ->. apply N.lxor_nilpotent.
Qed.

Lemma xorAccumulate_zero_iff (x : list byte) :
  forall (y : list byte) (v : N),
    length x = length y ->
    (xorAccumulate v x y = 0%N <-> v = 0%N /\ x = y).
Proof.
  induction x as [|a x IH]; intros [|b y] v Hlen; simpl in *;
    try discriminate.
  - intuition.
  - injection Hlen as Hlen. rewrite (IH y _ Hlen).
    rewrite N.lor_eq_0_iff, xorByte_zero_iff. split.
    + intros [[Hv Hab] Hxy]. subst. auto.
    + intros [Hv Hxy]. injection Hxy as -> ->. auto.
Qed.

Lemma hmacEqual_true_iff (x y : list byte) : hmacEqual x y = true <-> x = y.
Proof.
  unfold hmacEqual, ConstantTimeCompare.
  destruct (Nat.eqb (length x) (length y)) eqn:Hlen; simpl.
  - apply Nat.eqb_eq in Hlen.
    destruct (N.eqb (xorAccumulate 0 x y) 0) eqn:Hacc.
    + apply N.eqb_eq in Hacc. apply xorAccumulate_zero_iff in Hacc; auto.
      split; [intros _; tauto | reflexivity].
    + split; [discriminate|]. intros ->.
      apply N.eqb_neq in Hacc. exfalso. apply Hacc.
      apply xorAccumulate_zero_iff; auto.
  - split; [discriminate|]. intros ->.
    rewrite Nat.eqb_refl in Hlen. discriminate.
Qed.

Lemma hmacEqual_refl (x : list byte) : hmacEqual x x = true.
Proof. apply hmacEqual_true_iff. reflexivity. Qed.

Lemma hmacEqual_false_iff (x y : list byte) :
  hmacEqual x y = false <-> x <> y.
Proof.
  rewrite <- hmacEqual_true_iff.
  destruct (hmacEqual x y); split; congruence.
Qed.

Lemma flipBit_differs (i : N) (b : byte) : (i < 8)%N -> flipBit i b <> b.
Proof.
  intros Hi.
  assert (Hcases : (i = 0 \/ i = 1 \/ i = 2 \/ i = 3 \/
                    i = 4 \/ i = 5 \/ i = 6 \/ i = 7)%N) by lia.
  destruct Hcases as [->|[->|[->|[->|[->|[->|[->| ->]]]]]]];
    destruct b; vm_compute; discriminate.
Qed.

Lemma corruptAt_differs (l : list byte) :
  forall (pos : nat) (i : N),
    (i < 8)%N -> (pos < length l)%nat -> corruptAt pos i l <> l.
Proof.
  induction l as [|b l IH]; intros pos i Hi Hpos; simpl in *; [lia|].
  destruct pos as [|pos].
  - intros H. injection H as H. now apply (flipBit_differs i b).
  - intros H. injection H as H. apply (IH pos i); auto. lia.
Qed.

Lemma EncodeToString_length (src : list byte) :
  String.length (EncodeToString src) = (2 * List.length src)%nat.
Proof.
  induction src as [|b src IH]; simpl; [reflexivity|].
  rewrite IH. lia.
Qed.

Lemma EncodeToString_not_proceed (src : list byte) :
  String.eqb (EncodeToString src) "proceed" = false.
Proof.
  apply String.eqb_neq. intros H.
  apply (f_equal String.length) in H.
  rewrite EncodeToString_length in H. simpl in H. lia.
Qed.

(** ** Facts about encoding/hex *)

Lemma hex_high_digit (b : byte) :
  fromHexChar (hexDigit (N.shiftr (Byte.to_N b) 4))
  = Some (N.shiftr (Byte.to_N b) 4).
Proof. destruct b; vm_compute; reflexivity. Qed.

Lemma hex_low_digit (b : byte) :
  fromHexChar (hexDigit (N.land (Byte.to_N b) 15))
  = Some (N.land (Byte.to_N b) 15).
Proof. destruct b; vm_compute; reflexivity. Qed.

Lemma hex_recombine (b : byte) :
  byteOfN (N.lor (N.shiftl (N.shiftr (Byte.to_N b) 4) 4)
                 (N.land (Byte.to_N b) 15)) = b.
Proof. destruct b; vm_compute; reflexivity. Qed.

(** What a compliant client sends decodes to what it encoded. *)
Lemma DecodeString_EncodeToString (invalidByte : ascii -> goerror)
    (src : list byte) :
  DecodeString invalidByte (EncodeToString src) = inr src.
Proof.
  induction src as [|b src IH]; [reflexivity|].
  cbn [EncodeToString DecodeString].
  rewrite hex_high_digit, hex_low_digit, IH, hex_recombine. reflexivity.
Qed.

Lemma flipCharBit_case (c : ascii) :
  isHexLetter c = true ->
  fromHexChar (flipCharBit 5 c) = fromHexChar c /\
  fromHexChar c <> None /\
  flipCharBit 5 c <> c.
Proof.
  destruct c as [[] [] [] [] [] [] [] []]; vm_compute;
    intros H; try discriminate H;
    (split; [reflexivity | split; discriminate]).
Qed.

Lemma corruptText_case_differs (s : string) :
  forall pos, letterAt pos s = true -> corruptText pos 5 s <> s.
Proof.
  induction s as [|c s IH]; intros [|pos] Hl; try discriminate Hl.
  - unfold letterAt in Hl. simpl in Hl.
    destruct (flipCharBit_case c Hl) as (_ & _ & Hneq).
    simpl. intros H. injection H as H. contradiction.
  - simpl. intros H. injection H as H. now apply (IH pos).
Qed.

(** Changing the case of one digit [a]..[f] of a text does not change what
    it decodes to. *)
Lemma DecodeString_corruptText_case (invalidByte : ascii -> goerror)
    (n : nat) :
  forall s pos,
    (String.length s <= n)%nat ->
    letterAt pos s = true ->
    DecodeString invalidByte (corruptText pos 5 s)
    = DecodeString invalidByte s.
Proof.
  induction n as [n IH] using lt_wf_ind.
  intros [|p [|q rest]] pos Hlen Hl.
  - destruct pos; discriminate Hl.
  - destruct pos as [|pos]; [|destruct pos; discriminate Hl].
    unfold letterAt in Hl. simpl in Hl.
    destruct (flipCharBit_case p Hl) as (Heq & Hsome & _).
    simpl. rewrite Heq.
    destruct (fromHexChar p); [reflexivity | contradiction].
  - destruct pos as [|[|pos]].
    + unfold letterAt in Hl. simpl in Hl.
      destruct (flipCharBit_case p Hl) as (Heq & Hsome & _).
      cbn [corruptText DecodeString]. rewrite Heq.
      destruct (fromHexChar p); [reflexivity | contradiction].
    + unfold letterAt in Hl. simpl in Hl.
      destruct (flipCharBit_case q Hl) as (Heq & Hsome & _).
      cbn [corruptText DecodeString]. rewrite Heq.
      destruct (fromHexChar q); [reflexivity | contradiction].
    + cbn [corruptText DecodeString].
      simpl in Hlen.
      rewrite (IH (String.length rest)) with (s := rest); auto; lia.
Qed.

Ltac enum_below_16 a :=
  destruct a as [|a]; [|repeat (destruct a as [a|a|]; try lia)].

Lemma fromHexChar_bound (c : ascii) (a : N) :
  fromHexChar c = Some a -> (a < 16)%N.
Proof.
  destruct c as [[] [] [] [] [] [] [] []]; vm_compute;
    intros H; try discriminate H; injection H as <-; reflexivity.
Qed.

Lemma hexByte_digits (a b : N) :
  (a < 16)%N -> (b < 16)%N ->
  N.shiftr (Byte.to_N (byteOfN (N.lor (N.shiftl a 4) b))) 4 = a /\
  N.land (Byte.to_N (byteOfN (N.lor (N.shiftl a 4) b))) 15 = b.
Proof.
  intros Ha Hb. enum_below_16 a; enum_below_16 b;
    vm_compute; split; reflexivity.
Qed.

Lemma hexByte_inj (a b a' b' : N) :
  (a < 16)%N -> (b < 16)%N -> (a' < 16)%N -> (b' < 16)%N ->
  byteOfN (N.lor (N.shiftl a 4) b) = byteOfN (N.lor (N.shiftl a' 4) b') ->
  a = a' /\ b = b'.
Proof.
  intros Ha Hb Ha' Hb' Heq.
  destruct (hexByte_digits a b Ha Hb) as [H1 H2].
  destruct (hexByte_digits a' b' Ha' Hb') as [H1' H2'].
  rewrite Heq in H1, H2. split; congruence.
Qed.

(** Flipping one bit of a hexadecimal digit keeps its value only when the
    bit is the case bit of a digit [a]..[f]. *)
Lemma keepsDigit_only_case (i : N) (c : ascii) :
  (i < 8)%N -> keepsDigit i c = true -> i = 5%N /\ isHexLetter c = true.
Proof.
  intros Hi.
  assert (Hcases : (i = 0 \/ i = 1 \/ i = 2 \/ i = 3 \/
                    i = 4 \/ i = 5 \/ i = 6 \/ i = 7)%N) by lia.
  destruct Hcases as [->|[->|[->|[->|[->|[->|[->| ->]]]]]]];
    destruct c as [[] [] [] [] [] [] [] []]; vm_compute;
    intros H; try discriminate H; split; reflexivity.
Qed.

Lemma flipped_digit_differs (i : N) (c : ascii) (a a' : N) :
  (i < 8)%N ->
  ~ (i = 5%N /\ isHexLetter c = true) ->
  fromHexChar c = Some a ->
  fromHexChar (flipCharBit i c) = Some a' ->
  a' <> a.
Proof.
  intros Hi Hnot Hc Hc' ->. apply Hnot.
  apply keepsDigit_only_case; [exact Hi|].
  unfold keepsDigit. rewrite Hc, Hc'. apply N.eqb_refl.
Qed.

(** A single-bit corruption of a text that decodes, other than a change of
    case of a digit [a]..[f], does not decode to the same bytes. *)
Lemma DecodeString_corruptText_differs (invalidByte : ascii -> goerror)
    (n : nat) :
  forall s pos i bytes bytes',
    (String.length s <= n)%nat ->
    (pos < String.length s)%nat ->
    (i < 8)%N ->
    ~ (i = 5%N /\ letterAt pos s = true) ->
    DecodeString invalidByte s = inr bytes ->
    DecodeString invalidByte (corruptText pos i s) = inr bytes' ->
    bytes' <> bytes.
Proof.
  induction n as [n IH] using lt_wf_ind.
  intros [|p [|q rest]] pos i bytes bytes' Hlen Hpos Hi Hnot Hdec Hdec'.
  - simpl in Hpos. lia.
  - simpl in Hdec. destruct (fromHexChar p); discriminate Hdec.
  - cbn [DecodeString] in Hdec.
    destruct (fromHexChar p) as [a|] eqn:Hp; [|discriminate Hdec].
    destruct (fromHexChar q) as [b|] eqn:Hq; [|discriminate Hdec].
    destruct (DecodeString invalidByte rest) as [e|bs] eqn:Hrest;
      [discriminate Hdec|].
    injection Hdec as <-.
    pose proof (fromHexChar_bound _ _ Hp) as Ha.
    pose proof (fromHexChar_bound _ _ Hq) as Hb.
    destruct pos as [|[|pos]]; cbn [corruptText DecodeString] in Hdec'.
    + destruct (fromHexChar (flipCharBit i p)) as [a'|] eqn:Hp';
        [|discriminate Hdec'].
      rewrite Hq, Hrest in Hdec'. injection Hdec' as <-.
      intros Heq. injection Heq as Heq.
      pose proof (fromHexChar_bound _ _ Hp') as Ha'.
      apply hexByte_inj in Heq; auto.
      destruct Heq as [Heq _].
      now apply (flipped_digit_differs i p a a' Hi Hnot Hp Hp').
    + rewrite Hp in Hdec'.
      destruct (fromHexChar (flipCharBit i q)) as [b'|] eqn:Hq';
        [|discriminate Hdec'].
      rewrite Hrest in Hdec'. injection Hdec' as <-.
      intros Heq. injection Heq as Heq.
      pose proof (fromHexChar_bound _ _ Hq') as Hb'.
      apply hexByte_inj in Heq; auto.
      destruct Heq as [_ Heq].
      now apply (flipped_digit_differs i q b b' Hi Hnot Hq Hq').
    + rewrite Hp, Hq in Hdec'.
      destruct (DecodeString invalidByte (corruptText pos i rest))
        as [e|bs'] eqn:Hrest'; [discriminate Hdec'|].
      injection Hdec' as <-.
      intros Heq. injection Heq as Heq.
      simpl in Hlen, Hpos.
      apply (IH (String.length rest)) with
        (s := rest) (pos := pos) (i := i) (bytes := bs) (bytes' := bs');
        auto; lia.
Qed.

Ltac norm_state :=
  unfold afterEvents, deviceReply, nowMillis, sockWriteJSON, sockWrite,
    sockReceiveJSON, sockReceive, fail, stClose, sockClose, closeWith,
    logEvent, withSock, withWorld;
  simpl;
  rewrite <- ?app_assoc, ?Nat.add_succ_r, ?Nat.add_0_r; simpl.

Section Facts.

Variables W Measurement DeviceMetadata float64 Time : Type.
Variable json : Codec Measurement DeviceMetadata float64.
Variable lib : GoLib float64 Time.
Variable env : Environment.

Implicit Types (d : DeviceServer W Measurement DeviceMetadata float64)
               (u : UserServer W Time) (s : St W) (w : W)
               (msg : MessageIn) (data : string) (rest : list Inbound).

(** *** One turn of each loop *)

Lemma deviceLoop_reply_error d data msg s w' e :
  unmarshalMessageIn json data = inr msg ->
  deviceDispatch json d msg (world s) = (w', Some e) ->
  deviceAnswers json env d data s (MessageOut_Error e) 0 w'.
Proof.
  intros Hmsg Hdisp rest. simpl. rewrite Hmsg. simpl. rewrite Hdisp.
  f_equal. norm_state. reflexivity.
Qed.

Lemma deviceLoop_reply_now d data msg s w' :
  unmarshalMessageIn json data = inr msg ->
  deviceDispatch json d msg (world s) = (w', None) ->
  deviceAnswers json env d data s
    (MessageOut_Now (Z.quot (unixNano env (ticks s)) 1000000)) 1 w'.
Proof.
  intros Hmsg Hdisp rest. simpl. rewrite Hmsg. simpl. rewrite Hdisp.
  f_equal. norm_state. reflexivity.
Qed.

Lemma deviceLoop_receive_error d (i : Inbound) rest s err :
  snd (sockReceiveJSON json i s) = inl err ->
  deviceLoop json env d (i :: rest) s =
  Returned
    (afterEvents s
       [EvReceive i; EvCloseFrame CloseProtocolError (errText err);
        EvDisconnect] 0 0 (world s))
    (Some err).
Proof.
  intros Herr. simpl in *. rewrite Herr. norm_state. reflexivity.
Qed.

Lemma userRun_receive_error u (i : Inbound) rest s err :
  snd (sockReceiveJSON json i s) = inl err ->
  UserServer_Run json lib env u (i :: rest) s =
  Returned
    (afterEvents s
       [EvReceive i; EvCloseFrame CloseProtocolError (errText err);
        EvDisconnect] 0 0 (world s))
    (Some err).
Proof.
  intros Herr. simpl in *. rewrite Herr. norm_state. reflexivity.
Qed.

Lemma userRun_getValues_error u data msg s w' e :
  unmarshalMessageIn json data = inr msg ->
  Command msg = "getValues" ->
  doGetValues json lib u msg (world s) = (w', Some e) ->
  userAnswers json lib env u data s (Some (MessageOut_Error e)) w'.
Proof.
  intros Hmsg Hcmd Hget rest. simpl. rewrite Hmsg. f_equal.
  unfold userCycle. rewrite Hcmd. simpl. rewrite Hget.
  norm_state. reflexivity.
Qed.

Lemma userRun_getValues_ok u data msg s w' :
  unmarshalMessageIn json data = inr msg ->
  Command msg = "getValues" ->
  doGetValues json lib u msg (world s) = (w', None) ->
  userAnswers json lib env u data s None w'.
Proof.
  intros Hmsg Hcmd Hget rest. simpl. rewrite Hmsg. f_equal.
  unfold userCycle. rewrite Hcmd. simpl. rewrite Hget.
  norm_state. reflexivity.
Qed.

Lemma userRun_unknown_command u data msg s :
  unmarshalMessageIn json data = inr msg ->
  Command msg <> "getValues" ->
  userAnswers json lib env u data s
    (Some (MessageOut_Error (badCommand (Command msg)))) (world s).
Proof.
  intros Hmsg Hcmd rest. simpl. rewrite Hmsg. f_equal.
  unfold userCycle. apply String.eqb_neq in Hcmd. rewrite Hcmd.
  norm_state. reflexivity.
Qed.

(** *** The switch of the device loop *)







(** [getValues] arguments that do not decode are answered with
    [OperationFailed], not [InvalidInput]. *)
Lemma user_malformed_args_reply u data msg s err :
  unmarshalMessageIn json data = inr msg ->
  Command msg = "getValues" ->
  unmarshalGetValuesArgs json (Args msg) = inl err ->
  userAnswers json lib env u data s
    (Some (MessageOut_Error (mkError OperationFailed (errText err))))
    (world s).
Proof.
  intros Hmsg Hcmd Hdec.
  apply (userRun_getValues_error u data msg); auto.
  unfold doGetValues. rewrite Hdec. reflexivity.
Qed.

(** *** The claims *)





(** C4 (as amended): every receive error in a dispatch loop (a failure of
    the transport or of the decoding of the envelope) is fatal: the loop
    ends at once, the transport is closed with the protocol-error code
    carrying the error text, the error is returned and no frame after it
    is read.  The result of a reply write is not inspected: whatever the
    transport reports for it, the loop goes on to the next receive. *)
Theorem C4_receive_errors_are_fatal d u (i : Inbound) rest s :
  (forall err, snd (sockReceiveJSON json i s) = inl err ->
     let closed :=
       afterEvents s
         [EvReceive i; EvCloseFrame CloseProtocolError (errText err);
          EvDisconnect] 0 0 (world s) in
     deviceLoop json env d (i :: rest) s = Returned closed (Some err) /\
     UserServer_Run json lib env u (i :: rest) s
       = Returned closed (Some err))
  /\
  (forall data msg, i = Frame data ->
     unmarshalMessageIn json data = inr msg ->
     (exists m nticks w', deviceAnswers json env d data s m nticks w') /\
     (exists reply w', userAnswers json lib env u data s reply w')).
Proof.
  split.
  - intros err Herr. split.
    + now apply deviceLoop_receive_error.
    + now apply userRun_receive_error.
  - intros data msg -> Hmsg. split.
    + destruct (deviceDispatch json d msg (world s)) as [w' [e|]] eqn:Hd.
      * exists (MessageOut_Error e), 0%nat, w'.
        now apply (deviceLoop_reply_error d data msg).
      * eexists _, 1%nat, w'.
        now apply (deviceLoop_reply_now d data msg).
    + destruct (String.eqb_spec (Command msg) "getValues") as [Hc|Hc].
      * destruct (doGetValues json lib u msg (world s))
          as [w' [e|]] eqn:Hg.
        -- exists (Some (MessageOut_Error e)), w'.
           now apply (userRun_getValues_error u data msg).
        -- exists None, w'.
           now apply (userRun_getValues_ok u data msg).
      * eexists (Some _), (world s).
        now apply (userRun_unknown_command u data msg).
Qed.

(** *** Authentication *)

Lemma run_auth_rejected d key buf reply rest s e :
  randRead env = inr buf ->
  (hexDecodeString lib reply = inl e \/
   exists mac, hexDecodeString lib reply = inr mac /\
               mac <> hmacSHA256 lib key buf /\
               e = errAuthenticationFailed) ->
  authRejected json lib env d key buf reply rest s e.
Proof.
  intros Hrand Hcase. unfold authRejected. split.
  - unfold DeviceServer_Run, authenticate. rewrite Hrand. simpl.
    destruct Hcase as [Hdec | (mac & Hdec & Hneq & ->)]; rewrite Hdec.
    + norm_state. reflexivity.
    + apply hmacEqual_false_iff in Hneq. rewrite Hneq. simpl.
      norm_state. reflexivity.
  - simpl. rewrite EncodeToString_not_proceed. reflexivity.
Qed.

Lemma authenticate_accepts key buf reply rest s :
  randRead env = inr buf ->
  hexDecodeString lib reply = inr (hmacSHA256 lib key buf) ->
  authenticate lib env key (Frame reply :: rest) s =
    AuthReturned
      (afterEvents s
         [EvWrite (EncodeToString buf) (writeResult env (writes (sock s)));
          EvReceive (Frame reply);
          EvWrite "proceed" (writeResult env (S (writes (sock s))))]
         2 0 (world s))
      rest (writeResult env (S (writes (sock s)))).
Proof.
  intros Hrand Hdec.
  unfold authenticate. rewrite Hrand. simpl. rewrite Hdec.
  rewrite hmacEqual_refl. simpl.
  norm_state. reflexivity.
Qed.


(** A correct response in which the case of one digit [a]..[f] is changed
    is a different text, one bit away, that still authenticates. *)
Lemma case_flip_still_authenticates d key buf correct pos rest s :
  randRead env = inr buf ->
  hexDecodeString lib correct = inr (hmacSHA256 lib key buf) ->
  writeResult env (S (writes (sock s))) = None ->
  letterAt pos correct = true ->
  corruptText pos 5 correct <> correct /\
  DeviceServer_Run json lib env d key
    (Frame (corruptText pos 5 correct) :: rest) s =
    deviceLoop json env d rest
      (afterEvents s
         [EvWrite (EncodeToString buf) (writeResult env (writes (sock s)));
          EvReceive (Frame (corruptText pos 5 correct));
          EvWrite "proceed" None] 2 0 (world s)).
Proof.
  intros Hrand Hdec Hwrite Hl. split.
  - now apply corruptText_case_differs.
  - unfold DeviceServer_Run.
    rewrite (authenticate_accepts key buf _ rest s Hrand).
    + rewrite Hwrite. reflexivity.
    + unfold hexDecodeString in *.
      rewrite (DecodeString_corruptText_case _ (String.length correct));
        auto.
Qed.

(** C6 (as amended): an authentication reply that does not hex-decode, or
    that decodes to a value other than the expected HMAC, fails closed:
    "proceed" is not written, the transport is closed with the
    protocol-error code carrying the reason, and [Run] returns without
    entering the dispatch loop.  This includes every reply that decodes to
    the expected HMAC with one bit flipped, and every single-bit corruption
    of the text of a correct response other than a change of case of one of
    its digits [a]..[f]. *)
Theorem C6_wrong_response_fails_closed d key buf reply rest s :
  randRead env = inr buf ->
  (forall err, hexDecodeString lib reply = inl err ->
     authRejected json lib env d key buf reply rest s err)
  /\
  (forall mac, hexDecodeString lib reply = inr mac ->
     mac <> hmacSHA256 lib key buf ->
     authRejected json lib env d key buf reply rest s
       errAuthenticationFailed)
  /\
  (forall pos bit,
     hexDecodeString lib reply
       = inr (corruptAt pos bit (hmacSHA256 lib key buf)) ->
     (bit < 8)%N ->
     (pos < List.length (hmacSHA256 lib key buf))%nat ->
     authRejected json lib env d key buf reply rest s
       errAuthenticationFailed)
  /\
  (forall correct pos bit,
     hexDecodeString lib correct = inr (hmacSHA256 lib key buf) ->
     reply = corruptText pos bit correct ->
     (pos < String.length correct)%nat ->
     (bit < 8)%N ->
     ~ (bit = 5%N /\ letterAt pos correct = true) ->
     exists e, authRejected json lib env d key buf reply rest s e).
Proof.
  intros Hrand. split; [|split; [|split]].
  - intros err Hdec. apply run_auth_rejected; auto.
  - intros mac Hdec Hneq. apply run_auth_rejected; auto.
    right. exists mac. auto.
  - intros pos bit Hdec Hbit Hpos. apply run_auth_rejected; auto.
    right. eexists. split; [exact Hdec|]. split; [|reflexivity].
    now apply corruptAt_differs.
  - intros correct pos bit Hcorrect -> Hpos Hbit Hnot.
    destruct (hexDecodeString lib (corruptText pos bit correct))
      as [err|mac] eqn:Hdec.
    + exists err. apply run_auth_rejected; auto.
    + exists errAuthenticationFailed. apply run_auth_rejected; auto.
      right. exists mac. split; [exact Hdec|]. split; [|reflexivity].
      unfold hexDecodeString in *.
      apply (DecodeString_corruptText_differs (hexInvalidByteError lib)
               (String.length correct) correct pos bit); auto.
Qed.

(** *** Termination of [Run] *)

Lemma deviceLoop_returned d (inbox : list Inbound) :
  forall s s' r,
    deviceLoop json env d inbox s = Returned s' r ->
    exists err,
      r = Some err /\
      (exists pre, trace (sock s') =
         (pre ++ [EvCloseFrame CloseProtocolError (errText err);
                  EvDisconnect])%list) /\
      (exists i, In i inbox /\
                 snd (sockReceiveJSON json i s) = inl err).
Proof.
  induction inbox as [|i inbox IH]; intros s s' r Hrun; [discriminate|].
  destruct (snd (sockReceiveJSON json i s)) as [err|msg] eqn:Hrecv.
  - rewrite (deviceLoop_receive_error d i inbox s err Hrecv) in Hrun.
    injection Hrun as <- <-. exists err. split; [reflexivity|]. split.
    + exists (trace (sock s) ++ [EvReceive i])%list. simpl.
      rewrite <- app_assoc. reflexivity.
    + exists i. split; [now left | exact Hrecv].
  - simpl in Hrun, Hrecv. rewrite Hrecv in Hrun.
    destruct (deviceDispatch json d msg _) as [w opError] in Hrun.
    apply IH in Hrun. destruct Hrun as (err & Hr & Hclosed & i' & Hin & He).
    exists err. split; [exact Hr|]. split; [exact Hclosed|].
    exists i'. split; [now right | exact He].
Qed.

(** C10: [DeviceServer.Run] never returns nil.  Whenever it returns, it
    returns a non-nil error, which is the error of [authenticate] or the
    error of a receive of the loop (transport or JSON decoding), and the
    last thing done to the socket is the close with the protocol-error
    code and that error's text. *)
Theorem C10_run_returns_error d key (inbox : list Inbound) s s' r :
  DeviceServer_Run json lib env d key inbox s = Returned s' r ->
  exists err,
    r = Some err /\
    (exists pre, trace (sock s') =
       (pre ++ [EvCloseFrame CloseProtocolError (errText err);
                EvDisconnect])%list) /\
    ((exists sa rest,
        authenticate lib env key inbox s = AuthReturned sa rest (Some err))
     \/
     (exists i, In i inbox /\
                snd (sockReceiveJSON json i s) = inl err)).
Proof.
  unfold DeviceServer_Run. intros Hrun.
  destruct (authenticate lib env key inbox s)
    as [sa rest [err|] | sa] eqn:Hauth; [| |discriminate].
  - injection Hrun as <- <-. exists err. split; [reflexivity|]. split.
    + exists (trace (sock sa)). simpl. rewrite <- app_assoc. reflexivity.
    + left. exists sa, rest. reflexivity.
  - apply deviceLoop_returned in Hrun.
    destruct Hrun as (err & Hr & Hclosed & i & Hin & He).
    exists err. split; [exact Hr|]. split; [exact Hclosed|].
    right. exists i. split; [|exact He].
    (* the loop reads what [authenticate] left of the inbox *)
    unfold authenticate in Hauth.
    destruct (randRead env) as [e0|buf]; [discriminate|].
    destruct inbox as [|i0 inbox0]; [discriminate|].
    simpl in Hauth.
    destruct i0 as [data0|e0]; simpl in Hauth; [|discriminate].
    destruct (hexDecodeString lib data0); [discriminate|].
    destruct (negb (hmacEqual _ _)); [discriminate|].
    unfold sockWrite in Hauth. simpl in Hauth.
    injection Hauth as _ <- _. now right.
Qed.

End Facts.

(** ** Negotiation *)

Lemma existsb_eqb_In (p : string) (l : list string) :
  existsb (String.eqb p) l = true <-> In p l.
Proof.
  rewrite existsb_exists. split.
  - intros (x & Hin & Heq). apply String.eqb_eq in Heq. now subst.
  - intros Hin. exists p. split; [exact Hin | apply String.eqb_refl].
Qed.

Lemma selectSubprotocol_none (protocols clientProtocols : list string) :
  (forall p, In p protocols -> ~ In p clientProtocols) ->
  selectSubprotocol protocols clientProtocols = "".
Proof.
  induction protocols as [|sp protocols IH]; intros Hnone; simpl;
    [reflexivity|].
  destruct (existsb (String.eqb sp) clientProtocols) eqn:Hex.
  - apply existsb_eqb_In in Hex. exfalso.
    apply (Hnone sp); [now left | exact Hex].
  - apply IH. intros p Hin. apply Hnone. now right.
Qed.

Lemma selectSubprotocol_some (protocols clientProtocols : list string) :
  (exists p, In p protocols /\ In p clientProtocols) ->
  In (selectSubprotocol protocols clientProtocols) protocols /\
  In (selectSubprotocol protocols clientProtocols) clientProtocols.
Proof.
  induction protocols as [|sp protocols IH]; intros (p & Hp & Hc); simpl.
  - destruct Hp.
  - destruct (existsb (String.eqb sp) clientProtocols) eqn:Hex.
    + apply existsb_eqb_In in Hex. split; [now left | exact Hex].
    + destruct Hp as [-> | Hp].
      * apply existsb_eqb_In in Hc. congruence.
      * destruct IH as [H1 H2]; [now exists p|]. split; [now right|exact H2].
Qed.

(** C9: when the peer offers none of the supported protocols (or none at
    all), setup fails: a close frame with the protocol-error code is written,
    the connection is closed and no [apiBase] is returned; when a supported
    protocol is offered, the returned connection is bound to it and its read
    limit is 4096 bytes. *)
Theorem C9_negotiation (protocols : list string) (r : UpgradeRequest) :
  handshakeError r = None ->
  Forall (fun p => p <> "") protocols ->
  ((forall p, In p protocols -> ~ In p (offered r)) ->
   initAPIBaseFromHTTP r protocols =
     inl (errProtocolNegotiationFailed,
          Some (mkSocket "" 0
                  [EvCloseFrame CloseProtocolError ""; EvDisconnect] 0)))
  /\
  ((exists p, In p protocols /\ In p (offered r)) ->
   exists base,
     initAPIBaseFromHTTP r protocols = inr base /\
     ReadLimit (socket base) = 4096%Z /\
     In (Subprotocol (socket base)) protocols /\
     In (Subprotocol (socket base)) (offered r) /\
     trace (socket base) = []).
Proof.
  intros Hhs Hne. unfold initAPIBaseFromHTTP, Upgrade. rewrite Hhs. split.
  - intros Hnone. rewrite (selectSubprotocol_none _ _ Hnone). reflexivity.
  - intros Hsome. apply selectSubprotocol_some in Hsome.
    destruct Hsome as [Hin Hoff].
    unfold initAPIBaseFromSocket. simpl.
    destruct (String.eqb_spec (selectSubprotocol protocols (offered r)) "")
      as [Hempty|_].
    + exfalso. rewrite Forall_forall in Hne.
      apply (Hne _ Hin). exact Hempty.
    + eexists. split; [reflexivity|]. simpl. auto.
Qed.

(** ** The claims on explicit inputs *)

(** C2 (evaluation at the failing input): the user loop answers
    [getValues] arguments that do not decode with [OperationFailed]; the
    device loop answers [update] arguments that do not decode with
    [InvalidInput]. *)
Theorem C2_user_malformed_args_reply :
  UserServer_Run Demo.json Demo.lib Demo.env Demo.user
    [Frame Demo.frameGetValuesBadArgs] Demo.userConn
  = Blocked
      (mkSt (mkSocket userAPIProtocolV3 4096
               [EvReceive (Frame Demo.frameGetValuesBadArgs);
                EvWriteJSON
                  (MessageOut_Error
                     (mkError OperationFailed
                        (errText Demo.cannotUnmarshal))) None] 1) 0 0)
  /\
  deviceLoop Demo.json Demo.env Demo.device
    [Frame Demo.frameUpdateBadArgs] Demo.deviceConn
  = Blocked
      (mkSt (mkSocket deviceAPIProtocolV1 4096
               [EvReceive (Frame Demo.frameUpdateBadArgs);
                EvWriteJSON
                  (MessageOut_Error
                     (mkError InvalidInput
                        (errText Demo.cannotUnmarshal))) None] 1) 0 0).
Proof. split; vm_compute; reflexivity. Qed.



(** C4, as stated, fails for write errors: the write of the first reply
    fails, the loop does not end; it reads the next frame, runs the delegate
    again and replies. *)
Lemma C4_failed_reply_write_is_not_fatal :
  deviceLoop Demo.json Demo.envFirstWriteFails Demo.device
    [Frame Demo.frameUpdate; Frame Demo.frameUpdate] Demo.deviceConn
  = Blocked
      (mkSt (mkSocket deviceAPIProtocolV1 4096
               [EvReceive (Frame Demo.frameUpdate);
                EvWriteJSON (MessageOut_Now 1500000000000)
                  (Some Demo.brokenPipe);
                EvReceive (Frame Demo.frameUpdate);
                EvWriteJSON (MessageOut_Now 1500000000001) None] 2) 2 2).
Proof. vm_compute. reflexivity. Qed.

(** C6, as stated, fails for one kind of single-bit corruption: in the
    correct response [Demo.goodReply] the second character, the digit [a],
    is changed to [A] by flipping its bit 5.  The corrupted text differs
    from the correct one, decodes to the same bytes, and the server writes
    "proceed" and enters the dispatch loop. *)
Lemma C6_case_flip_authenticates :
  hexDecodeString Demo.lib Demo.goodReply
    = inr (hmacSHA256 Demo.lib Demo.key Demo.challenge)
  /\
  String.get 1 Demo.goodReply = Some "a"%char
  /\
  String.get 1 (corruptText 1 5 Demo.goodReply) = Some "A"%char
  /\
  corruptText 1 5 Demo.goodReply <> Demo.goodReply
  /\
  DeviceServer_Run Demo.json Demo.lib Demo.env Demo.device Demo.key
    [Frame (corruptText 1 5 Demo.goodReply)] Demo.deviceConn
  = Blocked
      (mkSt (mkSocket deviceAPIProtocolV1 4096
               [EvWrite (EncodeToString Demo.challenge) None;
                EvReceive (Frame (corruptText 1 5 Demo.goodReply));
                EvWrite "proceed" None] 2) 0 0).
Proof.
  repeat split; try (vm_compute; reflexivity).
  vm_compute. discriminate.
Qed.

(** ** Instances of the theorems

    Each theorem above, applied to the concrete instance. *)



Lemma C4_receive_errors_are_fatal_witness :
  deviceLoop Demo.json Demo.env Demo.device
    [ReadError (errorsNew "EOF"); Frame Demo.frameUpdate] Demo.deviceConn
  = Returned
      (afterEvents Demo.deviceConn
         [EvReceive (ReadError (errorsNew "EOF"));
          EvCloseFrame CloseProtocolError "EOF"; EvDisconnect] 0 0 0)
      (Some (errorsNew "EOF")).
Proof.
  apply (proj1 (proj1 (C4_receive_errors_are_fatal nat unit unit Z
                         (Z * Z)%type Demo.json Demo.lib Demo.env
                         Demo.device Demo.user
                         (ReadError (errorsNew "EOF"))
                         [Frame Demo.frameUpdate] Demo.deviceConn)
                  (errorsNew "EOF") eq_refl)).
Defined.


Lemma C6_wrong_response_fails_closed_witness :
  authRejected Demo.json Demo.lib Demo.env Demo.device Demo.key
    Demo.challenge "abc" [Frame Demo.frameUpdate] Demo.deviceConn
    ErrLength
  /\
  authRejected Demo.json Demo.lib Demo.env Demo.device Demo.key
    Demo.challenge
    (EncodeToString
       (corruptAt 3 0 (hmacSHA256 Demo.lib Demo.key Demo.challenge)))
    [Frame Demo.frameUpdate] Demo.deviceConn errAuthenticationFailed
  /\
  exists e,
    authRejected Demo.json Demo.lib Demo.env Demo.device Demo.key
      Demo.challenge (corruptText 0 0 Demo.goodReply)
      [Frame Demo.frameUpdate] Demo.deviceConn e.
Proof.
  split; [|split].
  - apply (proj1 (C6_wrong_response_fails_closed nat unit unit Z
                    (Z * Z)%type Demo.json Demo.lib Demo.env Demo.device
                    Demo.key Demo.challenge "abc" [Frame Demo.frameUpdate]
                    Demo.deviceConn eq_refl)).
    reflexivity.
  - apply (proj1 (proj2 (proj2
             (C6_wrong_response_fails_closed nat unit unit Z
                (Z * Z)%type Demo.json Demo.lib Demo.env Demo.device
                Demo.key Demo.challenge _ [Frame Demo.frameUpdate]
                Demo.deviceConn eq_refl))) 3%nat 0%N).
    + vm_compute. reflexivity.
    + reflexivity.
    + vm_compute. lia.
  - apply (proj2 (proj2 (proj2
             (C6_wrong_response_fails_closed nat unit unit Z
                (Z * Z)%type Demo.json Demo.lib Demo.env Demo.device
                Demo.key Demo.challenge _ [Frame Demo.frameUpdate]
                Demo.deviceConn eq_refl))) Demo.goodReply 0%nat 0%N).
    + vm_compute. reflexivity.
    + reflexivity.
    + vm_compute. lia.
    + reflexivity.
    + intros [H _]. discriminate H.
Defined.



Lemma C9_negotiation_witness :
  initAPIBaseFromHTTP (mkUpgradeRequest None ["v1.device.msg"])
    [deviceAPIProtocolV1]
  = inl (errProtocolNegotiationFailed,
         Some (mkSocket "" 0
                 [EvCloseFrame CloseProtocolError ""; EvDisconnect] 0))
  /\
  exists base,
    initAPIBaseFromHTTP (mkUpgradeRequest None [deviceAPIProtocolV1])
      [deviceAPIProtocolV1] = inr base /\
    ReadLimit (socket base) = 4096%Z /\
    In (Subprotocol (socket base)) [deviceAPIProtocolV1] /\
    In (Subprotocol (socket base)) [deviceAPIProtocolV1] /\
    trace (socket base) = [].
Proof.
  assert (Hne : Forall (fun p : string => p <> "") [deviceAPIProtocolV1])
    by (constructor; [intros H; vm_compute in H; discriminate H
                    | constructor]).
  split.
  - apply (proj1 (C9_negotiation [deviceAPIProtocolV1]
                    (mkUpgradeRequest None ["v1.device.msg"]) eq_refl Hne)).
    intros p [<-|[]] [H|[]]. vm_compute in H. discriminate H.
  - apply (proj2 (C9_negotiation [deviceAPIProtocolV1]
                    (mkUpgradeRequest None [deviceAPIProtocolV1])
                    eq_refl Hne)).
    exists deviceAPIProtocolV1. simpl. auto.
Defined.

Lemma C10_run_returns_error_witness :
  exists err,
    Some ErrLength = Some err /\
    (exists pre,
       [EvWrite (EncodeToString Demo.challenge) None;
        EvReceive (Frame "abc");
        EvCloseFrame CloseProtocolError (errText ErrLength);
        EvDisconnect]
       = (pre ++ [EvCloseFrame CloseProtocolError (errText err);
                  EvDisconnect])%list).
Proof.
  destruct (C10_run_returns_error nat unit unit Z (Z * Z)%type
              Demo.json Demo.lib Demo.env Demo.device Demo.key
              [Frame "abc"; Frame Demo.frameUpdate] Demo.deviceConn
              (afterEvents Demo.deviceConn
                 [EvWrite (EncodeToString Demo.challenge) None;
                  EvReceive (Frame "abc");
                  EvCloseFrame CloseProtocolError
                    (errText ErrLength);
                  EvDisconnect] 1 0 0)
              (Some ErrLength) eq_refl)
    as (err & Hr & Hclosed & _).
  exists err. split; [exact Hr | exact Hclosed].
Defined.


(** * Further properties *)

Section MoreFacts.

Variables W Measurement DeviceMetadata float64 Time : Type.
Variable json : Codec Measurement DeviceMetadata float64.
Variable lib : GoLib float64 Time.
Variable env : Environment.

Implicit Types (d : DeviceServer W Measurement DeviceMetadata float64)
               (u : UserServer W Time) (s : St W) (w : W)
               (msg : MessageIn) (data : string)
               (rest inbox : list Inbound).

(** *** One turn, in closed form *)

Lemma receiveError_inl (i : Inbound) s err :
  receiveError json i = Some err ->
  snd (sockReceiveJSON json i s) = inl err.
Proof.
  destruct i as [data|e]; simpl.
  - destruct (unmarshalMessageIn json data); congruence.
  - congruence.
Qed.

Lemma receiveError_None (i : Inbound) :
  receiveError json i = None ->
  exists data msg, i = Frame data /\ unmarshalMessageIn json data = inr msg.
Proof.
  destruct i as [data|e]; simpl; [|discriminate].
  destruct (unmarshalMessageIn json data) as [e|msg] eqn:H; [discriminate|].
  intros _. now exists data, msg.
Qed.

Lemma deviceLoop_stop d (i : Inbound) rest s err :
  receiveError json i = Some err ->
  deviceLoop json env d (i :: rest) s =
  Returned
    (afterEvents s
       [EvReceive i; EvCloseFrame CloseProtocolError (errText err);
        EvDisconnect] 0 0 (world s))
    (Some err).
Proof.
  intros H. apply deviceLoop_receive_error. now apply receiveError_inl.
Qed.

Lemma deviceLoop_turn d data msg rest s :
  unmarshalMessageIn json data = inr msg ->
  deviceLoop json env d (Frame data :: rest) s =
  deviceLoop json env d rest
    (afterEvents s
       [EvReceive (Frame data);
        EvWriteJSON
          (deviceReplyOf env (snd (deviceDispatch json d msg (world s))) s)
          (writeResult env (writes (sock s)))]
       1 (ticksOf (snd (deviceDispatch json d msg (world s))))
       (fst (deviceDispatch json d msg (world s)))).
Proof.
  intros Hmsg.
  destruct (deviceDispatch json d msg (world s)) as [w' [e|]] eqn:Hd; simpl.
  - now apply deviceLoop_reply_error with (msg := msg).
  - now apply deviceLoop_reply_now with (msg := msg).
Qed.

Lemma userRun_stop u (i : Inbound) rest s err :
  receiveError json i = Some err ->
  UserServer_Run json lib env u (i :: rest) s =
  Returned
    (afterEvents s
       [EvReceive i; EvCloseFrame CloseProtocolError (errText err);
        EvDisconnect] 0 0 (world s))
    (Some err).
Proof.
  intros H. apply userRun_receive_error. now apply receiveError_inl.
Qed.

Lemma userRun_turn u data msg rest s :
  unmarshalMessageIn json data = inr msg ->
  UserServer_Run json lib env u (Frame data :: rest) s =
  UserServer_Run json lib env u rest
    (afterEvents s
       (EvReceive (Frame data)
        :: userReplyEvents env (writes (sock s))
             (snd (userReplyOf json lib u msg (world s))))
       (List.length
          (userReplyEvents env (writes (sock s))
             (snd (userReplyOf json lib u msg (world s)))))
       0 (fst (userReplyOf json lib u msg (world s)))).
Proof.
  intros Hmsg. unfold userReplyOf.
  destruct (String.eqb_spec (Command msg) "getValues") as [Hc|Hc].
  - destruct (doGetValues json lib u msg (world s)) as [w' [e|]] eqn:Hg;
      simpl.
    + now apply userRun_getValues_error with (msg := msg).
    + now apply userRun_getValues_ok with (msg := msg).
  - simpl. now apply userRun_unknown_command with (msg := msg).
Qed.

(** *** Lists of events *)

Lemma replies_app (evs1 evs2 : list Event) :
  replies (evs1 ++ evs2) = (replies evs1 ++ replies evs2)%list.
Proof.
  induction evs1 as [|e evs1 IH]; [reflexivity|].
  destruct e; simpl; rewrite IH; reflexivity.
Qed.

Lemma nows_app (evs1 evs2 : list Event) :
  nows (evs1 ++ evs2) = (nows evs1 ++ nows evs2)%list.
Proof.
  induction evs1 as [|e evs1 IH]; [reflexivity|].
  destruct e as [t r|m r|i|c r|]; simpl; rewrite ?IH; try reflexivity.
  destruct (msgNow m); rewrite ?IH; reflexivity.
Qed.

Lemma clock_monotone (n m : nat) :
  (forall k, unixNano env k <= unixNano env (S k))%Z ->
  (n <= m)%nat ->
  (unixNano env n <= unixNano env m)%Z.
Proof.
  intros Hmono Hle. induction Hle as [|m Hle IH]; [lia|].
  specialize (Hmono m). lia.
Qed.

(** *** The device loop as a whole *)

(** The device loop answers every message it receives: over a whole run,
    the number of replies it writes is the number of frames it read and
    decoded, and so is the number of writes on the socket. *)
Theorem deviceLoop_one_reply_per_message d inbox :
  forall s,
  exists evs,
    trace (sock (outcomeState (deviceLoop json env d inbox s)))
      = (trace (sock s) ++ evs)%list /\
    List.length (replies evs) = decodedPrefix json inbox /\
    writes (sock (outcomeState (deviceLoop json env d inbox s)))
      = (writes (sock s) + decodedPrefix json inbox)%nat.
Proof.
  induction inbox as [|i inbox IH]; intros s.
  - exists []. simpl. rewrite app_nil_r, Nat.add_0_r. auto.
  - simpl decodedPrefix. destruct (receiveError json i) as [err|] eqn:Hr.
    + rewrite (deviceLoop_stop d i inbox s err Hr).
      eexists. simpl. split; [reflexivity|]. split; [reflexivity|]. lia.
    + destruct (receiveError_None i Hr) as (data & msg & -> & Hmsg).
      rewrite (deviceLoop_turn d data msg inbox s Hmsg).
      match goal with
      | |- context [deviceLoop json env d inbox ?s1] =>
          destruct (IH s1) as (evs & Htr & Hlen & Hw)
      end.
      rewrite Htr, Hw. simpl. rewrite <- app_assoc.
      eexists. split; [reflexivity|].
      rewrite replies_app. simpl. rewrite Hlen. split; lia.
Qed.

(** Every reply of the device loop has exactly one of [now] and [error]
    populated. *)
Theorem deviceLoop_replies_well_formed d inbox :
  forall s,
  exists evs,
    trace (sock (outcomeState (deviceLoop json env d inbox s)))
      = (trace (sock s) ++ evs)%list /\
    forallb wellFormedReply (replies evs) = true.
Proof.
  induction inbox as [|i inbox IH]; intros s.
  - exists []. simpl. rewrite app_nil_r. auto.
  - destruct (receiveError json i) as [err|] eqn:Hr.
    + rewrite (deviceLoop_stop d i inbox s err Hr).
      eexists. simpl. split; reflexivity.
    + destruct (receiveError_None i Hr) as (data & msg & -> & Hmsg).
      rewrite (deviceLoop_turn d data msg inbox s Hmsg).
      match goal with
      | |- context [deviceLoop json env d inbox ?s1] =>
          destruct (IH s1) as (evs & Htr & Hwf)
      end.
      rewrite Htr. simpl. rewrite <- app_assoc.
      eexists. split; [reflexivity|].
      rewrite replies_app, forallb_app, Hwf. simpl.
      destruct (snd (deviceDispatch json d msg (world s))); reflexivity.
Qed.

(** With a clock that does not go back, the [now] values of the replies of
    one run of the device loop are non-decreasing. *)
Theorem deviceLoop_now_monotone d inbox s :
  (forall k, unixNano env k <= unixNano env (S k))%Z ->
  exists evs,
    trace (sock (outcomeState (deviceLoop json env d inbox s)))
      = (trace (sock s) ++ evs)%list /\
    StronglySorted Z.le (nows evs).
Proof.
  intros Hmono.
  enough (H : exists evs,
    trace (sock (outcomeState (deviceLoop json env d inbox s)))
      = (trace (sock s) ++ evs)%list /\
    StronglySorted Z.le (nows evs) /\
    Forall (fun t => Z.quot (unixNano env (ticks s)) 1000000 <= t)%Z
           (nows evs)).
  { destruct H as (evs & Htr & Hs & _). now exists evs. }
  revert s. induction inbox as [|i inbox IH]; intros s.
  - exists []. simpl. rewrite app_nil_r. repeat split; constructor.
  - destruct (receiveError json i) as [err|] eqn:Hr.
    + rewrite (deviceLoop_stop d i inbox s err Hr).
      eexists. simpl. split; [reflexivity|]. split; constructor.
    + destruct (receiveError_None i Hr) as (data & msg & -> & Hmsg).
      rewrite (deviceLoop_turn d data msg inbox s Hmsg).
      match goal with
      | |- context [deviceLoop json env d inbox ?s1] =>
          destruct (IH s1) as (evs & Htr & Hs & Hlow)
      end.
      rewrite Htr. simpl trace. rewrite <- app_assoc.
      eexists. split; [reflexivity|].
      rewrite nows_app. simpl ticks in Hlow.
      destruct (snd (deviceDispatch json d msg (world s))) as [e|];
        simpl in *.
      * rewrite Nat.add_0_r in Hlow. split; assumption.
      * assert (Hstep : (Z.quot (unixNano env (ticks s)) 1000000
                         <= Z.quot (unixNano env (ticks s + 1)) 1000000)%Z).
        { apply Z.quot_le_mono; [lia|].
          apply clock_monotone; [exact Hmono | lia]. }
        assert (Hall : Forall
                  (fun t => Z.quot (unixNano env (ticks s)) 1000000 <= t)%Z
                  (nows evs)).
        { eapply Forall_impl; [|exact Hlow]. simpl. intros t Ht. lia. }
        split; constructor; auto. lia.
Qed.

(** The device loop ends exactly at the first receive error and returns that
    error, whatever the delegates and the transport do in between; without
    a receive error it is left waiting for the next frame. *)
Theorem deviceLoop_ends_at_first_receive_error d inbox :
  forall s,
    match firstReceiveError json inbox with
    | Some err =>
        exists s', deviceLoop json env d inbox s = Returned s' (Some err)
    | None => exists s', deviceLoop json env d inbox s = Blocked s'
    end.
Proof.
  induction inbox as [|i inbox IH]; intros s; simpl firstReceiveError.
  - now exists s.
  - destruct (receiveError json i) as [err|] eqn:Hr.
    + rewrite (deviceLoop_stop d i inbox s err Hr). eexists. reflexivity.
    + destruct (receiveError_None i Hr) as (data & msg & -> & Hmsg).
      rewrite (deviceLoop_turn d data msg inbox s Hmsg). apply IH.
Qed.

(** Frames are handled in order and nothing is read after the loop has
    returned: the device loop on [inbox1 ++ inbox2] is the loop on [inbox1]
    followed, when that is left waiting, by the loop on [inbox2]. *)
Theorem deviceLoop_app d inbox1 inbox2 :
  forall s,
    deviceLoop json env d (inbox1 ++ inbox2) s =
    match deviceLoop json env d inbox1 s with
    | Blocked s1 => deviceLoop json env d inbox2 s1
    | Returned s1 r => Returned s1 r
    end.
Proof.
  induction inbox1 as [|i inbox1 IH]; intros s; [reflexivity|].
  rewrite <- app_comm_cons.
  destruct (receiveError json i) as [err|] eqn:Hr.
  - rewrite !(deviceLoop_stop d i _ s err Hr). reflexivity.
  - destruct (receiveError_None i Hr) as (data & msg & -> & Hmsg).
    rewrite !(deviceLoop_turn d data msg _ s Hmsg). apply IH.
Qed.

(** *** The user loop as a whole *)

(** The user loop only ever writes error replies, at most one per message
    it decoded, and never reads the clock: it has no acknowledgment. *)
Theorem userRun_replies_are_errors u inbox :
  forall s,
  exists evs,
    trace (sock (outcomeState (UserServer_Run json lib env u inbox s)))
      = (trace (sock s) ++ evs)%list /\
    forallb isErrorReply (replies evs) = true /\
    (List.length (replies evs) <= decodedPrefix json inbox)%nat /\
    ticks (outcomeState (UserServer_Run json lib env u inbox s)) = ticks s.
Proof.
  induction inbox as [|i inbox IH]; intros s.
  - exists []. simpl. rewrite app_nil_r. auto.
  - simpl decodedPrefix. destruct (receiveError json i) as [err|] eqn:Hr.
    + rewrite (userRun_stop u i inbox s err Hr).
      eexists. simpl. split; [reflexivity|].
      repeat split; simpl; (reflexivity || lia).
    + destruct (receiveError_None i Hr) as (data & msg & -> & Hmsg).
      rewrite (userRun_turn u data msg inbox s Hmsg).
      match goal with
      | |- context [UserServer_Run json lib env u inbox ?s1] =>
          destruct (IH s1) as (evs & Htr & Herr & Hlen & Ht)
      end.
      rewrite Htr, Ht. simpl trace. rewrite <- app_assoc.
      eexists. split; [reflexivity|].
      rewrite replies_app, forallb_app, Herr, length_app.
      assert (Hreply : forall r,
                snd (userReplyOf json lib u msg (world s)) = Some r ->
                isErrorReply r = true).
      { unfold userReplyOf.
        destruct (String.eqb (Command msg) "getValues"); simpl.
        - destruct (snd (doGetValues json lib u msg (world s)));
            simpl; intros r H; inversion H; reflexivity.
        - intros r H. inversion H. reflexivity. }
      destruct (snd (userReplyOf json lib u msg (world s))) as [r|];
        simpl.
      * rewrite (Hreply r eq_refl). simpl.
        repeat split; simpl; (reflexivity || lia).
      * repeat split; simpl; (reflexivity || lia).
Qed.

(** [UserServer.Run] never returns nil: it ends exactly at the first
    receive error, returns that error, and the last thing it does to the
    socket is the close with the protocol-error code and the error text;
    without a receive error it is left waiting for the next frame. *)
Theorem userRun_ends_at_first_receive_error u inbox :
  forall s,
    match firstReceiveError json inbox with
    | Some err =>
        exists s',
          UserServer_Run json lib env u inbox s = Returned s' (Some err) /\
          exists pre,
            trace (sock s')
            = (pre ++ [EvCloseFrame CloseProtocolError (errText err);
                       EvDisconnect])%list
    | None => exists s', UserServer_Run json lib env u inbox s = Blocked s'
    end.
Proof.
  induction inbox as [|i inbox IH]; intros s; simpl firstReceiveError.
  - now exists s.
  - destruct (receiveError json i) as [err|] eqn:Hr.
    + rewrite (userRun_stop u i inbox s err Hr).
      eexists. split; [reflexivity|].
      exists (trace (sock s) ++ [EvReceive i])%list. simpl.
      rewrite <- app_assoc. reflexivity.
    + destruct (receiveError_None i Hr) as (data & msg & -> & Hmsg).
      rewrite (userRun_turn u data msg inbox s Hmsg). apply IH.
Qed.

(** Frames are handled in order and nothing is read after the loop has
    returned: the user loop on [inbox1 ++ inbox2] is the loop on [inbox1]
    followed, when that is left waiting, by the loop on [inbox2]. *)
Theorem userRun_app u inbox1 inbox2 :
  forall s,
    UserServer_Run json lib env u (inbox1 ++ inbox2) s =
    match UserServer_Run json lib env u inbox1 s with
    | Blocked s1 => UserServer_Run json lib env u inbox2 s1
    | Returned s1 r => Returned s1 r
    end.
Proof.
  induction inbox1 as [|i inbox1 IH]; intros s; [reflexivity|].
  rewrite <- app_comm_cons.
  destruct (receiveError json i) as [err|] eqn:Hr.
  - rewrite !(userRun_stop u i _ s err Hr). reflexivity.
  - destruct (receiveError_None i Hr) as (data & msg & -> & Hmsg).
    rewrite !(userRun_turn u data msg _ s Hmsg). apply IH.
Qed.

(** *** The handshake and [Run] *)

Lemma deviceLoop_extends d inbox :
  forall s,
  exists evs,
    trace (sock (outcomeState (deviceLoop json env d inbox s)))
      = (trace (sock s) ++ evs)%list.
Proof.
  induction inbox as [|i inbox IH]; intros s.
  - exists []. simpl. now rewrite app_nil_r.
  - destruct (receiveError json i) as [err|] eqn:Hr.
    + rewrite (deviceLoop_stop d i inbox s err Hr). eexists. reflexivity.
    + destruct (receiveError_None i Hr) as (data & msg & -> & Hmsg).
      rewrite (deviceLoop_turn d data msg inbox s Hmsg).
      match goal with
      | |- context [deviceLoop json env d inbox ?s1] =>
          destruct (IH s1) as (evs & Htr)
      end.
      rewrite Htr. simpl. rewrite <- app_assoc. eexists. reflexivity.
Qed.

Lemma hexDigit_in_table (n : N) :
  (n < 16)%N ->
  existsb (Ascii.eqb (hexDigit n)) (list_ascii_of_string hextable) = true.
Proof. intros Hn. enum_below_16 n; vm_compute; reflexivity. Qed.

Lemma hex_digits_of_byte (b : byte) :
  (N.shiftr (Byte.to_N b) 4 < 16)%N /\ (N.land (Byte.to_N b) 15 < 16)%N.
Proof. destruct b; vm_compute; split; reflexivity. Qed.

(** A client that answers the challenge with the lower-case hex encoding
    of the HMAC of the raw challenge bytes is authenticated: the server
    writes "proceed" and, the transport accepting that write, [Run] enters
    the dispatch loop. *)
Theorem compliant_client_authenticates d key buf rest s :
  randRead env = inr buf ->
  writeResult env (S (writes (sock s))) = None ->
  DeviceServer_Run json lib env d key
    (Frame (EncodeToString (hmacSHA256 lib key buf)) :: rest) s =
  deviceLoop json env d rest
    (afterEvents s
       [EvWrite (EncodeToString buf) (writeResult env (writes (sock s)));
        EvReceive (Frame (EncodeToString (hmacSHA256 lib key buf)));
        EvWrite "proceed" None] 2 0 (world s)).
Proof.
  intros Hrand Hwrite. unfold DeviceServer_Run.
  rewrite (authenticate_accepts W float64 Time lib env key buf _ rest s
             Hrand).
  - rewrite Hwrite. reflexivity.
  - apply DecodeString_EncodeToString.
Qed.

(** When the reply is correct but the write of "proceed" fails, [Run]
    returns the error of that write: the transport is closed with the
    protocol-error code and the error text, no further frame is read and
    no delegate runs. *)
Theorem proceed_write_failure_is_fatal d key buf reply rest s err :
  randRead env = inr buf ->
  hexDecodeString lib reply = inr (hmacSHA256 lib key buf) ->
  writeResult env (S (writes (sock s))) = Some err ->
  DeviceServer_Run json lib env d key (Frame reply :: rest) s =
  Returned
    (afterEvents s
       [EvWrite (EncodeToString buf) (writeResult env (writes (sock s)));
        EvReceive (Frame reply); EvWrite "proceed" (Some err);
        EvCloseFrame CloseProtocolError (errText err); EvDisconnect]
       2 0 (world s))
    (Some err).
Proof.
  intros Hrand Hdec Hwrite. unfold DeviceServer_Run.
  rewrite (authenticate_accepts W float64 Time lib env key buf reply rest s
             Hrand Hdec).
  rewrite Hwrite. norm_state. reflexivity.
Qed.

(** The challenge on the wire: the first thing [authenticate] does is to
    write the random buffer as text of twice its length, made of the
    digits [0]..[9] and [a]..[f] only, from which the raw bytes are
    recovered by hex decoding. *)
Theorem challenge_wire_format key buf s :
  randRead env = inr buf ->
  authenticate lib env key [] s =
    AuthBlocked
      (afterEvents s
         [EvWrite (EncodeToString buf) (writeResult env (writes (sock s)))]
         1 0 (world s))
  /\
  String.length (EncodeToString buf) = (2 * List.length buf)%nat
  /\
  (forall c, In c (list_ascii_of_string (EncodeToString buf)) ->
             In c (list_ascii_of_string hextable))
  /\
  hexDecodeString lib (EncodeToString buf) = inr buf.
Proof.
  intros Hrand. split; [|split; [|split]].
  - unfold authenticate. rewrite Hrand. norm_state. reflexivity.
  - apply EncodeToString_length.
  - clear Hrand. induction buf as [|b buf' IH]; simpl; [tauto|].
    destruct (hex_digits_of_byte b) as [Hhi Hlo].
    intros c [<-|[<-|Hc]]; [| |now apply IH].
    + pose proof (hexDigit_in_table _ Hhi) as H.
      apply existsb_exists in H. destruct H as (x & Hin & Heq).
      apply Ascii.eqb_eq in Heq. now subst.
    + pose proof (hexDigit_in_table _ Hlo) as H.
      apply existsb_exists in H. destruct H as (x & Hin & Heq).
      apply Ascii.eqb_eq in Heq. now subst.
  - apply DecodeString_EncodeToString.
Qed.

(** The handshake touches the connection in a bounded way: whatever the
    peer sends, [authenticate] writes no JSON message, does not close the
    socket, logs at most three events (challenge, receive, "proceed"), reads
    at most one frame, reads no clock and runs no delegate. *)
Theorem authenticate_footprint key inbox s :
  exists evs,
    trace (sock (authState (authenticate lib env key inbox s)))
      = (trace (sock s) ++ evs)%list /\
    replies evs = [] /\
    existsb isClose evs = false /\
    (List.length evs <= 3)%nat /\
    world (authState (authenticate lib env key inbox s)) = world s /\
    ticks (authState (authenticate lib env key inbox s)) = ticks s /\
    match authenticate lib env key inbox s with
    | AuthReturned _ rest _ => rest = inbox \/ rest = tl inbox
    | AuthBlocked _ => inbox = []
    end.
Proof.
  unfold authenticate.
  destruct (randRead env) as [e0|buf].
  - exists []. simpl. rewrite app_nil_r. repeat split; auto.
  - destruct inbox as [|i inbox'].
    + eexists. simpl. split; [reflexivity|]. repeat split; auto.
    + destruct i as [data|e]; simpl.
      * destruct (hexDecodeString lib data) as [e|mac].
        -- eexists. simpl. rewrite <- app_assoc.
           split; [reflexivity|]. repeat split; auto.
        -- destruct (negb (hmacEqual mac (hmacSHA256 lib key buf))).
           ++ eexists. simpl. rewrite <- app_assoc.
              split; [reflexivity|]. repeat split; auto.
           ++ eexists. simpl. rewrite <- !app_assoc.
              split; [reflexivity|]. repeat split; auto.
      * eexists. simpl. rewrite <- app_assoc.
        split; [reflexivity|]. repeat split; auto.
Qed.

(** No command is served before authentication: in every run of
    [DeviceServer.Run], either "proceed" was written and accepted, or no
    reply was written, no clock was read and the delegates' state is
    untouched. *)
Theorem no_command_before_authentication d key inbox s :
  exists evs,
    trace (sock (outcomeState
                   (DeviceServer_Run json lib env d key inbox s)))
      = (trace (sock s) ++ evs)%list /\
    (In (EvWrite "proceed" None) evs \/
     (replies evs = [] /\
      world (outcomeState (DeviceServer_Run json lib env d key inbox s))
        = world s /\
      ticks (outcomeState (DeviceServer_Run json lib env d key inbox s))
        = ticks s)).
Proof.
  unfold DeviceServer_Run, authenticate.
  destruct (randRead env) as [e0|buf].
  - eexists. simpl. rewrite <- app_assoc. split; [reflexivity|].
    right. auto.
  - destruct inbox as [|i inbox'].
    + eexists. simpl. split; [reflexivity|]. right. auto.
    + destruct i as [data|e]; simpl.
      * destruct (hexDecodeString lib data) as [e|mac].
        -- eexists. simpl. rewrite <- !app_assoc.
           split; [reflexivity|]. right. auto.
        -- destruct (negb (hmacEqual mac (hmacSHA256 lib key buf))).
           ++ eexists. simpl. rewrite <- !app_assoc.
              split; [reflexivity|]. right. auto.
           ++ destruct (writeResult env (S (writes (sock s))))
                as [e|] eqn:Hw; simpl.
              ** eexists. simpl. rewrite <- !app_assoc.
                 split; [reflexivity|]. right. auto.
              ** match goal with
                 | |- context [deviceLoop json env d inbox' ?s1] =>
                     destruct (deviceLoop_extends d inbox' s1) as (evs & Htr)
                 end.
                 rewrite Htr. simpl. rewrite <- !app_assoc.
                 eexists. split; [reflexivity|].
                 left. simpl. do 2 right. left. reflexivity.
      * eexists. simpl. rewrite <- !app_assoc.
        split; [reflexivity|]. right. auto.
Qed.

(** *** Setting up a device server *)

(** [NewDeviceServer] has three outcomes.  An upgrade error is returned as
    it is and leaves no connection.  A peer that offers "v2.device.msg"
    gets a server on a connection bound to that protocol, with read limit
    4096, nothing written yet and no delegate set.  Any other peer gets the
    negotiation error, after a close frame with the protocol-error code and
    the disconnect. *)
Theorem NewDeviceServer_outcomes (r : UpgradeRequest) :
  (forall err, handshakeError r = Some err ->
     NewDeviceServer W Measurement DeviceMetadata float64 r
     = inl (err, None))
  /\
  (handshakeError r = None -> In deviceAPIProtocolV1 (offered r) ->
     NewDeviceServer W Measurement DeviceMetadata float64 r
     = inr (mkApiBase (mkSocket deviceAPIProtocolV1 4096 [] 0),
            mkDeviceServer None None None None))
  /\
  (handshakeError r = None -> ~ In deviceAPIProtocolV1 (offered r) ->
     NewDeviceServer W Measurement DeviceMetadata float64 r
     = inl (errProtocolNegotiationFailed,
            Some (mkSocket "" 0
                    [EvCloseFrame CloseProtocolError ""; EvDisconnect] 0))).
Proof.
  unfold NewDeviceServer, initAPIBaseFromHTTP, Upgrade. split; [|split].
  - intros err ->. reflexivity.
  - intros -> Hin. apply existsb_eqb_In in Hin.
    cbn [selectSubprotocol]. rewrite Hin. reflexivity.
  - intros -> Hnot. cbn [selectSubprotocol].
    destruct (existsb (String.eqb deviceAPIProtocolV1) (offered r))
      eqn:Hex.
    + apply existsb_eqb_In in Hex. contradiction.
    + reflexivity.
Qed.


(** *** The time passed to [GetValues] *)


End MoreFacts.

(** *** Write results *)

Section WriteResults.

Variables W Measurement DeviceMetadata float64 Time : Type.
Variable json : Codec Measurement DeviceMetadata float64.
Variable lib : GoLib float64 Time.

(** Two environments with the same clock, whatever their transports report
    for the writes. *)
Variables env1 env2 : Environment.
Hypothesis same_clock : forall k, unixNano env1 k = unixNano env2 k.

Implicit Types (d : DeviceServer W Measurement DeviceMetadata float64)
               (u : UserServer W Time) (inbox : list Inbound).

(** What the transport reports for the writes has no influence on the
    device loop: with the same frames and the same clock it reads the same
    frames, writes the same replies in the same order, leaves the
    delegates in the same state and ends with the same error. *)
Theorem deviceLoop_ignores_write_results d inbox :
  forall s1 s2 : St W,
    map eraseResult (trace (sock s1)) = map eraseResult (trace (sock s2)) ->
    ticks s1 = ticks s2 ->
    world s1 = world s2 ->
    map eraseResult
      (trace (sock (outcomeState (deviceLoop json env1 d inbox s1))))
    = map eraseResult
        (trace (sock (outcomeState (deviceLoop json env2 d inbox s2))))
    /\
    world (outcomeState (deviceLoop json env1 d inbox s1))
    = world (outcomeState (deviceLoop json env2 d inbox s2))
    /\
    outcomeError (deviceLoop json env1 d inbox s1)
    = outcomeError (deviceLoop json env2 d inbox s2).
Proof.
  induction inbox as [|i inbox IH]; intros s1 s2 Htr Ht Hw.
  - simpl. auto.
  - destruct (receiveError json i) as [err|] eqn:Hr.
    + rewrite !(deviceLoop_stop _ _ _ _ json _ d i inbox _ err Hr).
      simpl. rewrite !map_app, Htr. auto.
    + destruct (receiveError_None _ _ _ json i Hr)
        as (data & msg & -> & Hmsg).
      rewrite !(deviceLoop_turn _ _ _ _ json _ d data msg inbox _ Hmsg).
      apply IH; simpl; rewrite <- ?Hw, <- ?Ht; auto.
      rewrite !map_app, Htr. simpl.
      destruct (snd (deviceDispatch json d msg (world s1))); simpl;
        rewrite ?Ht, ?same_clock; reflexivity.
Qed.

(** The same for the user loop. *)
Theorem userRun_ignores_write_results u inbox :
  forall s1 s2 : St W,
    map eraseResult (trace (sock s1)) = map eraseResult (trace (sock s2)) ->
    world s1 = world s2 ->
    map eraseResult
      (trace (sock (outcomeState (UserServer_Run json lib env1 u inbox s1))))
    = map eraseResult
        (trace (sock (outcomeState
                        (UserServer_Run json lib env2 u inbox s2))))
    /\
    world (outcomeState (UserServer_Run json lib env1 u inbox s1))
    = world (outcomeState (UserServer_Run json lib env2 u inbox s2))
    /\
    outcomeError (UserServer_Run json lib env1 u inbox s1)
    = outcomeError (UserServer_Run json lib env2 u inbox s2).
Proof.
  induction inbox as [|i inbox IH]; intros s1 s2 Htr Hw.
  - simpl. auto.
  - destruct (receiveError json i) as [err|] eqn:Hr.
    + rewrite !(userRun_stop _ _ _ _ _ json lib _ u i inbox _ err Hr).
      simpl. rewrite !map_app, Htr. auto.
    + destruct (receiveError_None _ _ _ json i Hr)
        as (data & msg & -> & Hmsg).
      rewrite !(userRun_turn _ _ _ _ _ json lib _ u data msg inbox _ Hmsg).
      apply IH; simpl; rewrite <- ?Hw; auto.
      rewrite !map_app, Htr. simpl. f_equal. f_equal.
      destruct (snd (userReplyOf json lib u msg (world s1)));
        reflexivity.
Qed.

End WriteResults.

(** ** Instances of the further properties *)

Lemma deviceLoop_now_monotone_witness :
  exists evs,
    trace (sock (outcomeState
                   (deviceLoop Demo.json Demo.env Demo.device
                      [Frame Demo.frameUpdate; Frame Demo.frameBogus;
                       Frame Demo.frameUpdate] Demo.deviceConn)))
      = (trace (sock Demo.deviceConn) ++ evs)%list /\
    StronglySorted Z.le (nows evs).
Proof.
  apply (deviceLoop_now_monotone nat unit unit Z Demo.json Demo.env
           Demo.device).
  intros k.
  change (1500000000000000000 + 1000000 * Z.of_nat k
          <= 1500000000000000000 + 1000000 * Z.of_nat (S k))%Z.
  lia.
Defined.

Lemma compliant_client_authenticates_witness :
  DeviceServer_Run Demo.json Demo.lib Demo.env Demo.device Demo.key
    [Frame Demo.goodReply; Frame Demo.frameUpdate] Demo.deviceConn
  = deviceLoop Demo.json Demo.env Demo.device [Frame Demo.frameUpdate]
      (afterEvents Demo.deviceConn
         [EvWrite (EncodeToString Demo.challenge) None;
          EvReceive (Frame Demo.goodReply); EvWrite "proceed" None]
         2 0 0).
Proof.
  apply (compliant_client_authenticates nat unit unit Z (Z * Z)%type
           Demo.json Demo.lib Demo.env Demo.device Demo.key Demo.challenge
           [Frame Demo.frameUpdate] Demo.deviceConn);
    reflexivity.
Defined.

Lemma proceed_write_failure_is_fatal_witness :
  DeviceServer_Run Demo.json Demo.lib Demo.envSecondWriteFails Demo.device
    Demo.key [Frame Demo.goodReply; Frame Demo.frameUpdate] Demo.deviceConn
  = Returned
      (afterEvents Demo.deviceConn
         [EvWrite (EncodeToString Demo.challenge) None;
          EvReceive (Frame Demo.goodReply);
          EvWrite "proceed" (Some Demo.brokenPipe);
          EvCloseFrame CloseProtocolError "write: broken pipe";
          EvDisconnect] 2 0 0)
      (Some Demo.brokenPipe).
Proof.
  apply (proceed_write_failure_is_fatal nat unit unit Z (Z * Z)%type
           Demo.json Demo.lib Demo.envSecondWriteFails Demo.device Demo.key
           Demo.challenge Demo.goodReply [Frame Demo.frameUpdate]
           Demo.deviceConn Demo.brokenPipe);
    vm_compute; reflexivity.
Defined.

Lemma challenge_wire_format_witness :
  String.length (EncodeToString Demo.challenge) = 64%nat /\
  hexDecodeString Demo.lib (EncodeToString Demo.challenge)
  = inr Demo.challenge.
Proof.
  destruct (challenge_wire_format nat Z (Z * Z)%type Demo.lib Demo.env
              Demo.key Demo.challenge Demo.deviceConn eq_refl)
    as (_ & Hlen & _ & Hdec).
  split; [exact Hlen | exact Hdec].
Defined.

Lemma NewDeviceServer_outcomes_witness :
  NewDeviceServer nat unit unit Z Demo.deviceRequest
  = inr (mkApiBase (mkSocket deviceAPIProtocolV1 4096 [] 0),
         mkDeviceServer None None None None)
  /\
  NewDeviceServer nat unit unit Z Demo.userRequest
  = inl (errProtocolNegotiationFailed,
         Some (mkSocket "" 0
                 [EvCloseFrame CloseProtocolError ""; EvDisconnect] 0)).
Proof.
  split.
  - apply (proj1 (proj2 (NewDeviceServer_outcomes nat unit unit Z
                           Demo.deviceRequest)));
      [reflexivity | simpl; auto].
  - apply (proj2 (proj2 (NewDeviceServer_outcomes nat unit unit Z
                           Demo.userRequest)));
      [reflexivity|].
    intros [H|[]]. vm_compute in H. discriminate H.
Defined.



Lemma deviceLoop_ignores_write_results_witness :
  map eraseResult
    (trace (sock (outcomeState
                    (deviceLoop Demo.json Demo.envFirstWriteFails
                       Demo.device
                       [Frame Demo.frameUpdate; Frame Demo.frameUpdate]
                       Demo.deviceConn))))
  = map eraseResult
      (trace (sock (outcomeState
                      (deviceLoop Demo.json Demo.env Demo.device
                         [Frame Demo.frameUpdate; Frame Demo.frameUpdate]
                         Demo.deviceConn)))).
Proof.
  apply (deviceLoop_ignores_write_results nat unit unit Z Demo.json
           Demo.envFirstWriteFails Demo.env (fun k => eq_refl)
           Demo.device [Frame Demo.frameUpdate; Frame Demo.frameUpdate]
           Demo.deviceConn Demo.deviceConn eq_refl eq_refl eq_refl).
Defined.

Lemma userRun_ignores_write_results_witness :
  world (outcomeState
           (UserServer_Run Demo.json Demo.lib Demo.envFirstWriteFails
              Demo.user [Frame Demo.frameBogus; Frame Demo.frameGetValues]
              Demo.userConn))
  = world (outcomeState
             (UserServer_Run Demo.json Demo.lib Demo.env Demo.user
                [Frame Demo.frameBogus; Frame Demo.frameGetValues]
                Demo.userConn)).
Proof.
  apply (userRun_ignores_write_results nat unit unit Z (Z * Z)%type
           Demo.json Demo.lib Demo.envFirstWriteFails Demo.env
           Demo.user [Frame Demo.frameBogus; Frame Demo.frameGetValues]
           Demo.userConn Demo.userConn eq_refl eq_refl).
Defined.

